(** * The TCP connection layer of src/network/tcp.c

    A shallow embedding of [__net_Connect], [__net_Accept], [SocksNegociate]
    and [SocksHandshakeTCP], followed by the properties of the specification
    that concern them.

    The C functions talk to the operating system, to the resolver and to the
    configuration of the calling object.  Here every effect is an [event]
    appended to the [trace] of a [world], and every answer of the outside is
    read from an oracle: the [env] record for the resolver and the
    configuration, an [os_script] per resolved address for the socket calls
    made on it, the [inbox] of the world for the bytes the peer sends. *)

From Stdlib Require Import ZArith List String Ascii Bool Lia.
Import ListNotations.
Open Scope Z_scope.

(** ** Platform constants (Linux values of the system headers) *)

Definition SOCK_STREAM : Z := 1.
Definition IPPROTO_TCP : Z := 6.
Definition AF_INET : Z := 2.
Definition EINTR : Z := 4.
Definition EINPROGRESS : Z := 115.
Definition POLLIN : Z := 1.
Definition POLLOUT : Z := 4.

(** ** Events, worlds and the primitive operations *)

Inductive msg_level := Dbg | Warn | Err.

Inductive event :=
| EvMsg (lvl : msg_level) (text : string)
| EvResolve (host : string) (port : Z) (i_val : Z)
| EvFreeaddrinfo
| EvSocket (family type proto : Z) (fd : Z)
| EvConnect (fd : Z)
| EvPoll (fd : Z) (timeout : Z)
| EvSockopt (fd : Z)
| EvClose (fd : Z)
| EvWrite (fd : Z) (buf : list Z)
| EvRead (fd : Z) (len : Z)
| EvPollSet (fds : list Z) (timeout : Z)
| EvObjectWait
| EvAccept (sfd : Z) (fd : Z)
| EvSetupSocket (fd : Z).

(** [trace] holds the newest event first.  [inbox] is what the peer will
    send; [wr_script] tells, write after write, whether [net_Write] manages to
    send the whole buffer (an exhausted script means it does). *)
Record world := mkWorld {
  trace : list event;
  inbox : list Z;
  wr_script : list bool
}.

Definition ev (e : event) (w : world) : world :=
  mkWorld (e :: trace w) (inbox w) (wr_script w).

Definition msg (lvl : msg_level) (text : string) (w : world) : world :=
  ev (EvMsg lvl text) w.

Definition net_Close (fd : Z) (w : world) : world := ev (EvClose fd) w.

Definition vlc_freeaddrinfo (w : world) : world := ev EvFreeaddrinfo w.

(** [net_Write fd buffer i_len]: the number of bytes written, or -1. *)
Definition net_Write (fd : Z) (buffer : list Z) (i_len : Z) (w : world)
  : Z * world :=
  let w' := mkWorld (EvWrite fd (firstn (Z.to_nat i_len) buffer) :: trace w)
                    (inbox w) (tl (wr_script w)) in
  match wr_script w with
  | false :: _ => (-1, w')
  | _ => (i_len, w')
  end.

(** [net_Read fd buffer i_len VLC_TRUE]: waits for [i_len] bytes; returns the
    number of bytes read and the buffer they were stored in. *)
Definition net_Read (fd : Z) (i_len : Z) (w : world) : Z * list Z * world :=
  let n := Z.to_nat i_len in
  let got := firstn n (inbox w) in
  (Z.of_nat (List.length got), got,
   mkWorld (EvRead fd i_len :: trace w) (skipn n (inbox w)) (wr_script w)).

(** Resource accounting, read off a trace (newest first).  [open_sockets]
    replays the trace: [net_Socket] opens a descriptor unless it returns -1,
    [net_Close] closes one. *)
Fixpoint remove_first (fd : Z) (l : list Z) : list Z :=
  match l with
  | [] => []
  | x :: l' => if x =? fd then l' else x :: remove_first fd l'
  end.

Fixpoint open_sockets (t : list event) : list Z :=
  match t with
  | [] => []
  | EvSocket _ _ _ fd :: t' =>
      if fd =? -1 then open_sockets t' else fd :: open_sockets t'
  | EvClose fd :: t' => remove_first fd (open_sockets t')
  | _ :: t' => open_sockets t'
  end.

Fixpoint closed (t : list event) : list Z :=
  match t with
  | [] => []
  | EvClose fd :: t' => fd :: closed t'
  | _ :: t' => closed t'
  end.

Fixpoint resolved (t : list event) : nat :=
  match t with
  | [] => O
  | EvResolve _ _ i_val :: t' => if i_val =? 0 then S (resolved t') else resolved t'
  | _ :: t' => resolved t'
  end.

Fixpoint released (t : list event) : nat :=
  match t with
  | [] => O
  | EvFreeaddrinfo :: t' => S (released t')
  | _ :: t' => released t'
  end.

Fixpoint polls (t : list event) : list Z :=
  match t with
  | [] => []
  | EvPoll _ tmo :: t' => tmo :: polls t'
  | _ :: t' => polls t'
  end.

Fixpoint writes (t : list event) : list (list Z) :=
  match t with
  | [] => []
  | EvWrite _ buf :: t' => buf :: writes t'
  | _ :: t' => writes t'
  end.

Fixpoint tried (t : list event) : nat :=
  match t with
  | [] => O
  | EvSocket _ _ _ _ :: t' => S (tried t')
  | _ :: t' => tried t'
  end.

Definition logged (lvl : msg_level) (text : string) (t : list event) : Prop :=
  In (EvMsg lvl text) t.

(** ** Resolver, configuration and per-address behaviour of the system *)

Record addrinfo := mkAddrinfo {
  ai_family : Z;
  ai_socktype : Z;
  ai_protocol : Z;
  sin_addr : list Z
}.

(** What the system answers when one resolved address is tried:
    [os_fd] is the result of [net_Socket]; [os_connect] the return value and
    [net_errno] of [connect]; [os_die k] the flag [p_this->b_die] and
    [os_poll k] the return value and [net_errno] of [poll] at the k-th turn
    of the wait loop; [os_sockopt] the return value of [getsockopt] and the
    content of [i_val] after it. *)
Record os_script := mkScript {
  os_fd : Z;
  os_connect : Z * Z;
  os_die : nat -> bool;
  os_poll : nat -> Z * Z;
  os_sockopt : Z * Z
}.

Record hints := mkHints { hint_family : Z; hint_socktype : Z }.

(** The collaborators that are declared outside tcp.c. *)
Record env := mkEnv {
  var_CreateGetNonEmptyString : string -> option string;
  var_GetInteger : string -> Z;
  atoi : string -> Z;
  vlc_getaddrinfo : string -> Z -> hints -> Z * list (addrinfo * os_script)
}.

(** ** C helpers *)

Definition uint8 (z : Z) : Z := z mod 256.

Definition strlen (s : string) : Z := Z.of_nat (String.length s).

Definition bytes_of (s : string) : list Z :=
  map (fun c => Z.of_N (N_of_ascii c)) (list_ascii_of_string s).

(** [memcpy (dst, s, n)] for [n <= strlen s]: the first [n] bytes of [s]. *)
Definition memcpy (s : string) (n : Z) : list Z :=
  firstn (Z.to_nat n) (bytes_of s).

(** [SetWBE (p, v)]: the 16-bit value, most significant byte first. *)
Definition SetWBE (v : Z) : list Z := [uint8 (Z.shiftr v 8); uint8 v].

(** [strchr (s, ':')] followed by [*psz++ = 0]: the part before the first
    colon and, when there is one, the part after it. *)
Fixpoint split_colon (s : string) : string * option string :=
  match s with
  | EmptyString => (EmptyString, None)
  | String c s' =>
      if Ascii.eqb c ":"%char then (EmptyString, Some s')
      else let '(h, p) := split_colon s' in (String c h, p)
  end.

(** The conversion of a wider integer to [int]: the low 32 bits, read as a
    signed number. *)
Definition to_int (z : Z) : Z :=
  let u := z mod 2 ^ 32 in
  if u <? 2 ^ 31 then u else u - 2 ^ 32.

(** The line feed that ends one of the messages. *)
Definition line_feed : string := String "010"%char EmptyString.

(** The GNU conditional [a ?: b]. *)
Definition elvis (a b : Z) : Z := if a =? 0 then b else a.

(** ** Results *)

Inductive status := VLC_SUCCESS | VLC_EGENERIC.

(** An undefined behaviour of the C program is a result of its own. *)
Inductive fault := NullDeref | OutOfBounds.

Inductive result (A : Type) :=
| Ret (a : A)
| Fault (f : fault).
Arguments Ret {A} a.
Arguments Fault {A} f.

(** ** SocksNegociate *)

Definition SocksNegociate (fd i_socks_version : Z)
    (psz_socks_user psz_socks_passwd : option string) (w : world)
  : result status * world :=
  if negb (i_socks_version =? 5) then (Ret VLC_SUCCESS, w) else
  let b_auth :=
    match psz_socks_user, psz_socks_passwd with
    | None, None => true
    | _, _ => false
    end in
  let buffer :=
    if b_auth then [uint8 i_socks_version; 2; 0; 2]
    else [uint8 i_socks_version; 1; 0] in
  let i_len := if b_auth then 4 else 3 in
  let '(n, w) := net_Write fd buffer i_len w in
  if negb (n =? i_len) then (Ret VLC_EGENERIC, w) else
  let '(n, buffer, w) := net_Read fd 2 w in
  if negb (n =? 2) then (Ret VLC_EGENERIC, w) else
  let w := msg Dbg "socks: v=%d method=%x" w in
  if nth 1 buffer 0 =? 0 then
    (Ret VLC_SUCCESS, msg Dbg "socks: no authentication required" w)
  else if nth 1 buffer 0 =? 2 then
    match psz_socks_user with
    | None => (Fault NullDeref, w)            (* strlen (NULL) *)
    | Some user =>
    match psz_socks_passwd with
    | None => (Fault NullDeref, w)            (* strlen (NULL) *)
    | Some passwd =>
      let i_len1 := Z.min (strlen user) 255 in
      let i_len2 := Z.min (strlen passwd) 255 in
      let w := msg Dbg "socks: username/password authentication" w in
      let buffer :=
        [uint8 i_socks_version; uint8 i_len1] ++ memcpy user i_len1
        ++ [uint8 i_len2] ++ memcpy passwd i_len2 in
      let i_len := 3 + i_len1 + i_len2 in
      let '(n, w) := net_Write fd buffer i_len w in
      if negb (n =? i_len) then (Ret VLC_EGENERIC, w) else
      let '(n, buffer, w) := net_Read fd 2 w in
      if negb (n =? 2) then (Ret VLC_EGENERIC, w) else
      let w := msg Dbg "socks: v=%d status=%x" w in
      if negb (nth 1 buffer 0 =? 0) then
        (Ret VLC_EGENERIC, msg Err "socks: authentication rejected" w)
      else (Ret VLC_SUCCESS, w)
    end
    end
  else
    (Ret VLC_EGENERIC,
     if b_auth then msg Err "socks: unsupported authentication method %x" w
     else msg Err "socks: authentification needed" w).

(** ** SocksHandshakeTCP *)

Definition socks4_request (e : env) (fd : Z) (psz_host : string) (i_port : Z)
    (w : world) : result status * world :=
  let '(i_val, p_res) := vlc_getaddrinfo e psz_host 0 (mkHints AF_INET 0) in
  let w := ev (EvResolve psz_host 0 i_val) w in
  if negb (i_val =? 0) then (Ret VLC_EGENERIC, w) else
  match p_res with
  | [] => (Fault NullDeref, w)                (* p_res->ai_addr *)
  | (ai, _) :: _ =>
    let buffer := [4; 1] ++ SetWBE i_port ++ firstn 4 (sin_addr ai) ++ [0] in
    let w := vlc_freeaddrinfo w in
    let '(n, w) := net_Write fd buffer 9 w in
    if negb (n =? 9) then (Ret VLC_EGENERIC, w) else
    let '(n, buffer, w) := net_Read fd 8 w in
    if negb (n =? 8) then (Ret VLC_EGENERIC, w) else
    let w := msg Dbg "socks: v=%d cd=%d" w in
    if negb (nth 1 buffer 0 =? 90) then (Ret VLC_EGENERIC, w)
    else (Ret VLC_SUCCESS, w)
  end.

Definition socks5_request (fd : Z) (psz_host : string) (i_port : Z)
    (w : world) : result status * world :=
  let i_hlen := Z.min (strlen psz_host) 255 in
  let buffer :=
    [5; 1; 0; 3; uint8 i_hlen] ++ memcpy psz_host i_hlen ++ SetWBE i_port in
  let i_len := 5 + i_hlen + 2 in
  let '(n, w) := net_Write fd buffer i_len w in
  if negb (n =? i_len) then (Ret VLC_EGENERIC, w) else
  let '(n, buffer, w) := net_Read fd 5 w in
  if negb (n =? 5) then (Ret VLC_EGENERIC, w) else
  let w := msg Dbg "socks: v=%d rep=%d atyp=%d" w in
  if negb (nth 1 buffer 0 =? 0) then
    (Ret VLC_EGENERIC,
     msg Err (String.append "socks: CONNECT request failed" line_feed) w)
  else
    let remaining :=
      if nth 3 buffer 0 =? 1 then Some (4 - 1 + 2)
      else if nth 3 buffer 0 =? 3 then Some (nth 4 buffer 0 + 2)
      else if nth 3 buffer 0 =? 4 then Some (16 - 1 + 2)
      else None in
    match remaining with
    | None => (Ret VLC_EGENERIC, w)
    | Some i_len =>
      let '(n, _, w) := net_Read fd i_len w in
      if negb (n =? i_len) then (Ret VLC_EGENERIC, w)
      else (Ret VLC_SUCCESS, w)
    end.

Definition SocksHandshakeTCP (e : env) (fd i_socks_version : Z)
    (psz_user psz_passwd : option string) (psz_host : string) (i_port : Z)
    (w : world) : result status * world :=
  let '(i_socks_version, w) :=
    if negb (i_socks_version =? 4) && negb (i_socks_version =? 5)
    then (5, msg Warn "invalid socks protocol version %d" w)
    else (i_socks_version, w) in
  let '(r, w) :=
    if i_socks_version =? 5
    then SocksNegociate fd i_socks_version psz_user psz_passwd w
    else (Ret VLC_SUCCESS, w) in
  match r with
  | Fault f => (Fault f, w)
  | Ret VLC_EGENERIC => (Ret VLC_EGENERIC, w)
  | Ret VLC_SUCCESS =>
    if i_socks_version =? 4 then socks4_request e fd psz_host i_port w
    else if i_socks_version =? 5 then socks5_request fd psz_host i_port w
    else (Ret VLC_SUCCESS, w)
  end.

(** ** __net_Connect *)

(** How the body of the loop over the resolved addresses ends: [break] with
    the socket connected, [goto next_ai], or [return -1] from inside. *)
Inductive attempt_end := AttemptOk | AttemptNext | AttemptAbort.

(** The [for (;;)] wait loop.  [quot] is [d.quot], which starts at the
    quotient of a timeout that is not negative and only decreases while it is
    positive: it is a natural number.  [k] counts the turns. *)
Fixpoint poll_loop (os : os_script) (fd rem : Z) (quot k : nat) (w : world)
  : attempt_end * world :=
  if os_die os k then
    (AttemptAbort,
     vlc_freeaddrinfo (net_Close fd (msg Dbg "connection aborted" w)))
  else
    let w := ev (EvPoll fd (if (0 <? Z.of_nat quot) then 100 else rem)) w in
    let '(i_ret, net_errno) := os_poll os k in
    if i_ret =? 1 then (AttemptOk, w)
    else if (i_ret =? -1) && negb (net_errno =? EINTR) then
      (AttemptNext, msg Err "connection polling error: %m" w)
    else
      match quot with
      | O => (AttemptNext, msg Warn "connection timed out" w)
      | S quot' => poll_loop os fd rem quot' (S k) w
      end.

(** The branch taken when [connect] reports [EINPROGRESS]. *)
Definition wait_connected (e : env) (os : os_script) (fd : Z) (w : world)
  : attempt_end * world :=
  let w := msg Dbg "connection: %m" w in
  let timeout := var_GetInteger e "ipv4-timeout" in
  let '(timeout, w) :=
    if timeout <? 0
    then (0, msg Err "invalid negative value for ipv4-timeout" w)
    else (timeout, w) in
  let d_quot := Z.quot timeout 100 in
  let d_rem := Z.rem timeout 100 in
  match poll_loop os fd d_rem (Z.to_nat d_quot) 0 w with
  | (AttemptOk, w) =>
      let w := ev (EvSockopt fd) w in
      let '(ret, i_val) := os_sockopt os in
      if (ret =? -1) || negb (i_val =? 0)
      then (AttemptNext, msg Err "connection failed: %m" w)
      else (AttemptOk, w)
  | other => other
  end.

(** One resolved address whose socket could be created. *)
Definition attempt (e : env) (os : os_script) (fd : Z) (w : world)
  : attempt_end * world :=
  let w := ev (EvConnect fd) w in
  let '(ret, net_errno) := os_connect os in
  if negb (ret =? 0) then
    if negb (net_errno =? EINPROGRESS)
    then (AttemptNext, msg Err "connection failed: %m" w)
    else wait_connected e os fd w
  else (AttemptOk, w).

(** The loop over the resolved addresses: [Some i_handle] when it runs to
    its end or breaks, [None] when the call returned from inside it. *)
Fixpoint connect_loop (e : env) (type proto : Z)
    (ptr : list (addrinfo * os_script)) (w : world) : option Z * world :=
  match ptr with
  | [] => (Some (-1), w)
  | (ai, os) :: ai_next =>
      let fd := os_fd os in
      let w := ev (EvSocket (ai_family ai) (elvis type (ai_socktype ai))
                            (elvis proto (ai_protocol ai)) fd) w in
      if fd =? -1 then
        connect_loop e type proto ai_next (msg Dbg "socket error: %m" w)
      else
        match attempt e os fd w with
        | (AttemptOk, w) =>
            (Some fd, msg Dbg "connection succeeded (socket = %d)" w)
        | (AttemptNext, w) =>
            connect_loop e type proto ai_next (net_Close fd w)
        | (AttemptAbort, w) => (None, w)
        end
  end.

(** The part of the function that runs when "socks" is set, up to the two
    switches: [None] when one of them returns -1. *)
Definition socks_target (e : env) (psz_socks psz_host : string)
    (i_port type proto : Z) (w : world)
  : option (string * Z * Z * Z) * world :=
  let '(psz_realhost, psz) := split_colon psz_socks in
  let i_realport := match psz with Some p => atoi e p | None => 1080 end in
  let w := msg Dbg "net: connecting to %s port %d (SOCKS) for %s port %d" w in
  if negb ((type =? 0) || (type =? SOCK_STREAM)) then
    (None, msg Err "Socket type not supported through SOCKS" w)
  else
    let type := SOCK_STREAM in
    if negb ((proto =? 0) || (proto =? IPPROTO_TCP)) then
      (None, msg Err "Transport not supported through SOCKS" w)
    else
      let proto := IPPROTO_TCP in
      (Some (psz_realhost, i_realport, type, proto), w).

(** What follows the loop once a socket is connected and "socks" was set. *)
Definition socks_tunnel (e : env) (i_handle : Z) (psz_host : string)
    (i_port : Z) (w : world) : result Z * world :=
  let psz_user := var_CreateGetNonEmptyString e "socks-user" in
  let psz_pwd := var_CreateGetNonEmptyString e "socks-pwd" in
  match SocksHandshakeTCP e i_handle 5 psz_user psz_pwd psz_host i_port w with
  | (Fault f, w) => (Fault f, w)
  | (Ret VLC_SUCCESS, w) => (Ret i_handle, w)
  | (Ret VLC_EGENERIC, w) =>
      (Ret (-1), net_Close i_handle (msg Err "SOCKS handshake failed" w))
  end.

Definition net_Connect (e : env) (psz_host : string) (i_port type proto : Z)
    (w : world) : result Z * world :=
  let i_port := if i_port =? 0 then 80 else i_port in
  let psz_socks := var_CreateGetNonEmptyString e "socks" in
  let '(target, w) :=
    match psz_socks with
    | Some s => socks_target e s psz_host i_port type proto w
    | None =>
        (Some (psz_host, i_port, type, proto),
         msg Dbg "net: connecting to %s port %d" w)
    end in
  match target with
  | None => (Ret (-1), w)
  | Some (psz_realhost, i_realport, type, proto) =>
      let '(i_val, res) :=
        vlc_getaddrinfo e psz_realhost i_realport (mkHints 0 SOCK_STREAM) in
      let w := ev (EvResolve psz_realhost i_realport i_val) w in
      if negb (i_val =? 0) then
        (Ret (-1), msg Err "cannot resolve %s port %d : %s" w)
      else
        match connect_loop e type proto res w with
        | (None, w) => (Ret (-1), w)
        | (Some i_handle, w) =>
            let w := vlc_freeaddrinfo w in
            if i_handle =? -1 then (Ret (-1), w)
            else
              match psz_socks with
              | Some _ => socks_tunnel e i_handle psz_host i_port w
              | None => (Ret i_handle, w)
              end
        end
  end.

(** ** __net_Accept *)

(** The listening sockets are an array of [int] closed by -1.  The function
    moves its entries with [memmove], which counts bytes: the array is
    modelled with its bytes, four per [int], in either byte order. *)
Inductive byte_order := LittleEndian | BigEndian.

Definition sizeof_int : nat := 4.

Definition int_bytes (v : Z) : list Z :=
  [Z.land v 255; Z.land (Z.shiftr v 8) 255;
   Z.land (Z.shiftr v 16) 255; Z.land (Z.shiftr v 24) 255].

Definition encode_int (bo : byte_order) (v : Z) : list Z :=
  match bo with
  | LittleEndian => int_bytes v
  | BigEndian => rev (int_bytes v)
  end.

Definition decode_int (bo : byte_order) (b0 b1 b2 b3 : Z) : Z :=
  let u :=
    match bo with
    | LittleEndian =>
        Z.lor b0 (Z.lor (Z.shiftl b1 8) (Z.lor (Z.shiftl b2 16) (Z.shiftl b3 24)))
    | BigEndian =>
        Z.lor b3 (Z.lor (Z.shiftl b2 8) (Z.lor (Z.shiftl b1 16) (Z.shiftl b0 24)))
    end in
  if u <? 2 ^ 31 then u else u - 2 ^ 32.

Definition encode_ints (bo : byte_order) (a : list Z) : list Z :=
  flat_map (encode_int bo) a.

Fixpoint decode_ints (bo : byte_order) (mem : list Z) : list Z :=
  match mem with
  | b0 :: b1 :: b2 :: b3 :: mem' => decode_int bo b0 b1 b2 b3 :: decode_ints bo mem'
  | _ => []
  end.

(** [memmove (mem + dst, mem + src, len)], offsets and length in bytes. *)
Definition memmove (mem : list Z) (dst src len : nat) : list Z :=
  firstn dst mem ++ firstn len (skipn src mem) ++ skipn (dst + len) mem.

(** [a[i] = v] inside the array. *)
Definition store (a : list Z) (i : nat) (v : Z) : list Z :=
  firstn i a ++ v :: skipn (S i) a.

(** The two statements after [net_SetupSocket]:
    [memmove (pi_fd + i, pi_fd + i + 1, n - (i + 1)); pi_fd[n - 1] = sfd]. *)
Definition move_to_end (bo : byte_order) (pi_fd : list Z) (i n : nat)
    (sfd : Z) : list Z :=
  let mem := encode_ints bo pi_fd in
  let mem := memmove mem (sizeof_int * i) (sizeof_int * (i + 1)) (n - (i + 1)) in
  store (decode_ints bo mem) (n - 1) sfd.

(** [while (pi_fd[n] != -1) n++]; there is nothing to stop it in an array
    without the closing -1. *)
Fixpoint count_fds (pi_fd : list Z) : option nat :=
  match pi_fd with
  | [] => None
  | fd :: rest => if fd =? -1 then Some O else option_map S (count_fds rest)
  end.

Record pollfd := mkPollfd { pfd_fd : Z; pfd_events : Z; pfd_revents : Z }.

(** One turn of the [while] loop as the outside decides it: whether the
    object is alive, whether [poll] fails and with which [net_errno], the
    events the kernel holds for each descriptor, and what [accept] returns on
    each listening socket. *)
Record round := mkRound {
  r_alive : bool;
  r_poll_errno : option Z;
  r_revents : Z -> Z;
  r_accept : Z -> Z
}.

Record listener := mkListener {
  pi_fd : list Z;
  errno : Z;
  history : list event
}.

Definition note (e : event) (st : listener) : listener :=
  mkListener (pi_fd st) (errno st) (e :: history st).

Definition set_errno (v : Z) (st : listener) : listener :=
  mkListener (pi_fd st) v (history st).

Definition set_pi_fd (a : list Z) (st : listener) : listener :=
  mkListener a (errno st) (history st).

(** [poll (ufd, nfds, timeout)]: only the first [nfds] entries are looked
    at; the result counts those with an event. *)
Definition poll (r : round) (ufd : list pollfd) (nfds : nat) (timeout : Z)
    (st : listener) : Z * list pollfd * listener :=
  let st := note (EvPollSet (map pfd_fd (firstn nfds ufd)) timeout) st in
  match r_poll_errno r with
  | Some e => (-1, ufd, set_errno e st)
  | None =>
      let seen :=
        map (fun p => mkPollfd (pfd_fd p) (pfd_events p) (r_revents r (pfd_fd p)))
            (firstn nfds ufd) in
      (Z.of_nat (List.length (filter (fun p => negb (pfd_revents p =? 0)) seen)),
       seen ++ skipn nfds ufd, st)
  end.

(** How a call ends: [return fd]; [return -1] from the switch on the result
    of [poll]; [break] after [vlc_object_wait]; or the object is not alive. *)
Inductive accept_end :=
| Accepted (fd : Z)
| WaitFailed
| Cancelled
| NotAlive.

Definition return_value (a : accept_end) : Z :=
  match a with Accepted fd => fd | _ => -1 end.

(** The [for] loop over the listening sockets, at index [i], with the
    entries still to visit. *)
Fixpoint scan (bo : byte_order) (r : round) (n i : nat) (ufd : list pollfd)
    (st : listener) : option Z * listener :=
  match ufd with
  | [] => (None, st)
  | p :: rest =>
      if pfd_revents p =? 0 then scan bo r n (S i) rest st
      else
        let sfd := pfd_fd p in
        let fd := r_accept r sfd in
        let st := note (EvAccept sfd fd) st in
        if fd =? -1 then
          scan bo r n (S i) rest (note (EvMsg Err "accept failed (%m)") st)
        else
          let st := note (EvSetupSocket fd) st in
          let st := set_pi_fd (move_to_end bo (pi_fd st) i n sfd) st in
          (Some fd,
           note (EvMsg Dbg "accepted socket %d (from socket %d)") st)
  end.

(** The call, one [round] per turn of the [while] loop; [None] when the
    rounds given do not reach the end of the call.  [evfd] is the result of
    [vlc_object_waitpipe]. *)
Fixpoint accept_loop (bo : byte_order) (evfd timeout : Z) (rounds : list round)
    (st : listener) : option (result accept_end) * listener :=
  match rounds with
  | [] => (None, st)
  | r :: later =>
      if negb (r_alive r) then (Some (Ret NotAlive), st) else
      match count_fds (pi_fd st) with
      | None => (Some (Fault OutOfBounds), st)
      | Some n =>
          let ufd :=
            map (fun i => mkPollfd (if (i <? n)%nat then nth i (pi_fd st) 0 else evfd)
                                   POLLIN 0)
                (seq 0 (S n)) in
          let '(ret, ufd, st) := poll r ufd n timeout st in
          if ret =? -1 then
            (Some (Ret WaitFailed),
             if negb (errno st =? EINTR)
             then note (EvMsg Err "poll error: %m") st else st)
          else if ret =? 0 then (Some (Ret WaitFailed), st)
          else if negb (pfd_revents (nth n ufd (mkPollfd 0 0 0)) =? 0) then
            (Some (Ret Cancelled), set_errno EINTR (note EvObjectWait st))
          else
            match scan bo r n 0 (firstn n ufd) st with
            | (Some fd, st) => (Some (Ret (Accepted fd)), st)
            | (None, st) => accept_loop bo evfd timeout later st
            end
      end
  end.

Definition net_Accept (bo : byte_order) (evfd : Z) (i_wait : Z)
    (rounds : list round) (st : listener)
  : option (result accept_end) * listener :=
  let timeout := if i_wait <? 0 then -1 else to_int (Z.quot i_wait 1000) in
  accept_loop bo evfd timeout rounds st.

(** ** Reading a trace *)

(** The sockets and resolver results a trace accounts for. *)
Definition ledger (t : list event) : list Z * nat * nat :=
  (open_sockets t, resolved t, released t).

(** The first turn, counted from turn [k] and within [quot] more turns, at
    which [p_this->b_die] is found set. *)
Fixpoint first_die (os : os_script) (k quot : nat) : option nat :=
  if os_die os k then Some O
  else
    match quot with
    | O => None
    | S quot' => option_map S (first_die os (S k) quot')
    end.

(** [n] waits of 100 ms on [fd]. *)
Definition slices (fd : Z) (n : nat) (w : world) : world :=
  Nat.iter n (ev (EvPoll fd 100)) w.

(** A result of [poll] that neither reports the socket writable nor fails
    with anything but [EINTR]. *)
Definition nothing_yet (p : Z * Z) : bool :=
  negb (fst p =? 1) && negb ((fst p =? -1) && negb (snd p =? EINTR)).

(** The first buffer handed to [net_Write] in a trace. *)
Definition first_write (t : list event) : list Z := last (writes t) [].

(** How the attempt on one resolved address ends once its socket exists. *)
Definition attempt_outcome (e : env) (os : os_script) : attempt_end :=
  fst (attempt e os (os_fd os) (mkWorld [] [] [])).

(** The wait of one turn of [accept_loop] fails or finds nothing among the
    listening sockets [fds]. *)
Definition wait_fails (r : round) (fds : list Z) : bool :=
  match r_poll_errno r with
  | Some _ => true
  | None => forallb (fun fd => r_revents r fd =? 0) fds
  end.

(** ** The statements of the specification that the code is compared with *)

(** The specification's handshake step of connect: the protocol version is
    the configured one. *)
Definition socks_tunnel_as_specified (e : env) (configured_version : Z)
    (i_handle : Z) (psz_host : string) (i_port : Z) (w : world)
  : result Z * world :=
  match SocksHandshakeTCP e i_handle configured_version
          (var_CreateGetNonEmptyString e "socks-user")
          (var_CreateGetNonEmptyString e "socks-pwd") psz_host i_port w with
  | (Fault f, w) => (Fault f, w)
  | (Ret VLC_SUCCESS, w) => (Ret i_handle, w)
  | (Ret VLC_EGENERIC, w) =>
      (Ret (-1), net_Close i_handle (msg Err "SOCKS handshake failed" w))
  end.

(** The specification's listen set after the socket at index [i] was
    serviced: that socket at the tail, the following ones one place left. *)
Definition rotated_as_specified (fds : list Z) (i : nat) : list Z :=
  firstn i fds ++ skipn (S i) fds ++ firstn 1 (skipn i fds).

(** The specification's rule for the wait of accept: the call returns at
    once with an error exactly when nothing is ready or the wait fails with
    an error other than [EINTR]. *)
Definition returns_at_once_as_specified (r : round) (fds : list Z) : bool :=
  match r_poll_errno r with
  | Some e => negb (e =? EINTR)
  | None => forallb (fun fd => r_revents r fd =? 0) fds
  end.

(** The specification's method offer: no-auth alone without credentials,
    no-auth and user/password with a user name or a password. *)
Definition offer_as_specified (user passwd : option string) : list Z :=
  match user, passwd with
  | None, None => [5; 1; 0]
  | _, _ => [5; 2; 0; 2]
  end.

(** ** Scenarios *)

Module Scenario.

Definition quiet_world : world := mkWorld [] [] [].

Definition ai : addrinfo := mkAddrinfo AF_INET SOCK_STREAM IPPROTO_TCP [192; 0; 2; 1].

Definition never (_ : nat) : bool := false.
Definition expires (_ : nat) : Z * Z := (0, 0).

(** No socket can be created. *)
Definition os_no_socket : os_script :=
  mkScript (-1) (0, 0) never expires (0, 0).

(** Socket [fd] is created and the connection is refused (ECONNREFUSED). *)
Definition os_refused (fd : Z) : os_script :=
  mkScript fd (-1, 111) never expires (0, 0).

(** Socket [fd] is created and connects at once. *)
Definition os_connected (fd : Z) : os_script :=
  mkScript fd (0, 0) never expires (0, 0).

(** Socket [fd] is created and the connection stays in progress. *)
Definition os_pending (fd : Z) : os_script :=
  mkScript fd (-1, EINPROGRESS) never expires (0, 0).

Definition no_string (_ : string) : option string := None.

(** No proxy; "ipv4-timeout" is [timeout]; the resolver answers [res]. *)
Definition direct (timeout : Z) (res : list (addrinfo * os_script)) : env :=
  mkEnv no_string (fun _ => timeout) (fun _ => 0) (fun _ _ _ => (0, res)).

Definition abc : list (addrinfo * os_script) :=
  [(ai, os_no_socket); (ai, os_refused 7); (ai, os_connected 8);
   (ai, os_connected 9)].

(** "socks" is "proxy:1080", no credentials, every integer variable of the
    object is 4; the proxy is reached on socket 8. *)
Definition proxied : env :=
  mkEnv (fun name => if String.eqb name "socks" then Some "proxy:1080"%string
                     else None)
        (fun _ => 4) (fun _ => 1080)
        (fun _ _ _ => (0, [(ai, os_connected 8)])).

(** The proxy selects no-auth and grants the request (bound to 10.0.0.1:80). *)
Definition proxy_grants : world :=
  mkWorld [] [5; 0; 5; 0; 0; 1; 10; 0; 0; 1; 0; 80] [].

(** The proxy selects user/password. *)
Definition proxy_wants_password : world := mkWorld [] [5; 2] [].

(** Listening sockets 3, 4 and 5; the wait pipe is descriptor 9. *)
Definition three_listeners : listener := mkListener [3; 4; 5; -1] 0 [].
Definition one_listener : listener := mkListener [3; -1] 0 [].
Definition evfd : Z := 9.

(** Every listening socket is readable; [accept] on [sfd] gives [sfd + 100]. *)
Definition all_ready : round :=
  mkRound true None (fun fd => if fd =? evfd then 0 else POLLIN)
          (fun sfd => sfd + 100).

(** Only the wait pipe is readable. *)
Definition cancel_raised : round :=
  mkRound true None (fun fd => if fd =? evfd then POLLIN else 0)
          (fun sfd => sfd + 100).

(** [poll] is interrupted by a signal. *)
Definition interrupted : round :=
  mkRound true (Some EINTR) (fun _ => 0) (fun sfd => sfd + 100).

End Scenario.

(** ** net_ListenClose *)

(** The [for] loop that calls [net_Close] on every entry up to the closing
    -1; an array without the closing -1 is read past its end. *)
Fixpoint close_each (pi : list Z) (w : world) : result world :=
  match pi with
  | [] => Fault OutOfBounds
  | fd :: rest => if fd =? -1 then Ret w else close_each rest (net_Close fd w)
  end.

(** [None] is the null pointer.  The boolean tells whether the array was
    handed to [free]. *)
Definition net_ListenClose (fds : option (list Z)) (w : world)
  : result (bool * world) :=
  match fds with
  | None => Ret (false, w)
  | Some a =>
      match close_each a w with
      | Ret w => Ret (true, w)
      | Fault f => Fault f
      end
  end.

(** ** More readings of a world *)

(** Every scripted [net_Write] sends its whole buffer. *)
Definition all_writes_succeed (w : world) : bool :=
  forallb (fun ok => ok) (wr_script w).

(** The milliseconds asked of [poll] over a trace. *)
Definition waited (t : list event) : Z := fold_right Z.add 0 (polls t).

(** Sockets opened and not closed, sockets closed, resolver results
    obtained and released, all at once. *)
Definition accounts (t : list event) : list Z * list Z * nat * nat :=
  (open_sockets t, closed t, resolved t, released t).

(** The socket type and protocol that the two switches of connect let
    through when "socks" is set. *)
Definition through_socks (type proto : Z) : bool :=
  ((type =? 0) || (type =? SOCK_STREAM))
  && ((proto =? 0) || (proto =? IPPROTO_TCP)).

Fixpoint colon_free (s : string) : bool :=
  match s with
  | EmptyString => true
  | String c s' => negb (Ascii.eqb c ":"%char) && colon_free s'
  end.

(** The hosts and ports asked of the resolver, newest first. *)
Fixpoint resolve_calls (t : list event) : list (string * Z) :=
  match t with
  | [] => []
  | EvResolve host port _ :: t' => (host, port) :: resolve_calls t'
  | _ :: t' => resolve_calls t'
  end.

(** The calls of [accept]: listening socket and result, newest first. *)
Fixpoint accept_calls (t : list event) : list (Z * Z) :=
  match t with
  | [] => []
  | EvAccept sfd fd :: t' => (sfd, fd) :: accept_calls t'
  | _ :: t' => accept_calls t'
  end.

(** The resolver was called at least once. *)
Fixpoint resolver_called (t : list event) : bool :=
  match t with
  | [] => false
  | EvResolve _ _ _ :: _ => true
  | _ :: t' => resolver_called t'
  end.

(** A resolved address that connect goes past: no socket for it, or an
    attempt that ends in [next_ai]. *)
Definition candidate_fails (e : env) (c : addrinfo * os_script) : bool :=
  (os_fd (snd c) =? -1) ||
  match attempt_outcome e (snd c) with
  | AttemptNext => true
  | _ => false
  end.

(** A listening socket that the scan of accept goes past: no event on it,
    or an [accept] that fails. *)
Definition listener_skipped (r : round) (fd : Z) : bool :=
  (r_revents r fd =? 0) || (r_accept r fd =? -1).

Definition int_range (v : Z) : Prop := - 2 ^ 31 <= v < 2 ^ 31.

(** ** More scenarios *)

Module Example.

(** The resolver knows no host. *)
Definition unresolved : env :=
  mkEnv Scenario.no_string (fun _ => 250) (fun _ => 0) (fun _ _ _ => (-2, [])).

(** The resolver answers 192.0.2.1 for every host. *)
Definition resolving : env :=
  mkEnv Scenario.no_string (fun _ => 250) (fun _ => 0)
        (fun _ _ _ => (0, [(Scenario.ai, Scenario.os_connected 8)])).

(** Socket [fd] becomes writable at the first wait, with the pending error
    [so_error]. *)
Definition os_completes (fd so_error : Z) : os_script :=
  mkScript fd (-1, EINPROGRESS) Scenario.never (fun _ => (1, 0)) (0, so_error).

(** The proxy selects user/password and accepts the credentials. *)
Definition proxy_accepts_password : world := mkWorld [] [5; 2; 5; 0] [].

(** A SOCKS4 proxy that grants the request. *)
Definition socks4_grants : world := mkWorld [] [0; 90; 0; 80; 192; 0; 2; 1] [].

(** A SOCKS5 proxy answering with a bound domain name of 3 bytes. *)
Definition socks5_domain_reply : world :=
  mkWorld [] [5; 0; 0; 3; 3; 97; 98; 99; 0; 80; 42] [].

(** Socket 3 has an event but [accept] fails on it; socket 4 delivers 104. *)
Definition first_accept_fails : round :=
  mkRound true None (fun fd => if fd =? Scenario.evfd then 0 else POLLIN)
          (fun sfd => if sfd =? 3 then -1 else sfd + 100).

End Example.

(** * Properties *)

Ltac break_match :=
  match goal with
  | |- context [match ?x with _ => _ end] =>
      lazymatch x with
      | context [match _ with _ => _ end] => fail
      | _ => destruct x eqn:?
      end
  end.

(** ** The handshake touches no socket and no resolver result *)

Lemma net_Write_ledger fd buffer i_len w :
  ledger (trace (snd (net_Write fd buffer i_len w))) = ledger (trace w).
Proof. unfold net_Write. repeat break_match; reflexivity. Qed.

Lemma net_Read_ledger fd i_len w :
  ledger (trace (snd (net_Read fd i_len w))) = ledger (trace w).
Proof. reflexivity. Qed.







(** ** The loop over the resolved addresses *)

Section ConnectLoop.

Variable e : env.

Lemma poll_loop_ledger os fd rem quot : forall k w,
  let rw := poll_loop os fd rem quot k w in
  resolved (trace (snd rw)) = resolved (trace w) /\
  match fst rw with
  | AttemptAbort =>
      open_sockets (trace (snd rw)) = remove_first fd (open_sockets (trace w))
      /\ released (trace (snd rw)) = S (released (trace w))
  | _ =>
      open_sockets (trace (snd rw)) = open_sockets (trace w)
      /\ released (trace (snd rw)) = released (trace w)
  end.
Proof.
  induction quot as [|q IH]; intros k w; cbn [poll_loop].
  - destruct (os_die os k); [cbn; auto|].
    destruct (os_poll os k) as [i_ret net_errno].
    destruct (i_ret =? 1); [cbn; auto|].
    destruct ((i_ret =? -1) && negb (net_errno =? EINTR)); cbn; auto.
  - destruct (os_die os k); [cbn; auto|].
    destruct (os_poll os k) as [i_ret net_errno].
    destruct (i_ret =? 1); [cbn; auto|].
    destruct ((i_ret =? -1) && negb (net_errno =? EINTR)); [cbn; auto|].
    exact (IH (S k) (ev (EvPoll fd (if 0 <? Z.of_nat (S q) then 100 else rem)) w)).
Qed.

Lemma attempt_ledger os fd w :
  let rw := attempt e os fd w in
  resolved (trace (snd rw)) = resolved (trace w) /\
  match fst rw with
  | AttemptAbort =>
      open_sockets (trace (snd rw)) = remove_first fd (open_sockets (trace w))
      /\ released (trace (snd rw)) = S (released (trace w))
  | _ =>
      open_sockets (trace (snd rw)) = open_sockets (trace w)
      /\ released (trace (snd rw)) = released (trace w)
  end.
Proof.
  unfold attempt. destruct (os_connect os) as [ret net_errno].
  destruct (negb (ret =? 0)); [|cbn; auto].
  destruct (negb (net_errno =? EINPROGRESS)); [cbn; auto|].
  unfold wait_connected.
  set (w1 := msg Dbg "connection: %m" (ev (EvConnect fd) w)).
  destruct (var_GetInteger e "ipv4-timeout" <? 0).
  - pose proof (poll_loop_ledger os fd (Z.rem 0 100) (Z.to_nat (Z.quot 0 100)) 0%nat
                  (msg Err "invalid negative value for ipv4-timeout" w1)) as H.
    cbv zeta in H.
    destruct (poll_loop _ _ _ _ _ _) as [[] w2]; cbn [fst snd] in *;
      try exact H.
    destruct (os_sockopt os) as [r v]. destruct ((r =? -1) || negb (v =? 0)); exact H.
  - pose proof (poll_loop_ledger os fd (Z.rem (var_GetInteger e "ipv4-timeout") 100)
                  (Z.to_nat (Z.quot (var_GetInteger e "ipv4-timeout") 100)) 0%nat w1) as H.
    cbv zeta in H.
    destruct (poll_loop _ _ _ _ _ _) as [[] w2]; cbn [fst snd] in *;
      try exact H.
    destruct (os_sockopt os) as [r v]. destruct ((r =? -1) || negb (v =? 0)); exact H.
Qed.

Lemma connect_loop_ledger type proto : forall ptr w,
  let rw := connect_loop e type proto ptr w in
  resolved (trace (snd rw)) = resolved (trace w) /\
  match fst rw with
  | Some i_handle =>
      released (trace (snd rw)) = released (trace w) /\
      open_sockets (trace (snd rw)) =
        (if i_handle =? -1 then open_sockets (trace w)
         else i_handle :: open_sockets (trace w))
  | None =>
      released (trace (snd rw)) = S (released (trace w)) /\
      open_sockets (trace (snd rw)) = open_sockets (trace w)
  end.
Proof.
  induction ptr as [|[ai os] ai_next IH]; intros w; cbn [connect_loop].
  - cbn. auto.
  - destruct (os_fd os =? -1) eqn:Hfd.
    + specialize (IH (msg Dbg "socket error: %m"
                       (ev (EvSocket (ai_family ai) (elvis type (ai_socktype ai))
                              (elvis proto (ai_protocol ai)) (os_fd os)) w))).
      cbv zeta in IH. cbn [msg ev trace resolved released open_sockets] in IH.
      rewrite Hfd in IH. exact IH.
    + set (w1 := ev _ w).
      assert (Hopen : open_sockets (trace w1) = os_fd os :: open_sockets (trace w))
        by (subst w1; cbn; rewrite Hfd; reflexivity).
      pose proof (attempt_ledger os (os_fd os) w1) as H. cbv zeta in H.
      destruct (attempt e os (os_fd os) w1) as [[] w2]; cbn [fst snd] in *.
      * destruct H as [Hr [Ho Hf]]. cbn. rewrite Hfd. rewrite Hr, Ho, Hf, Hopen.
        subst w1; cbn; auto.
      * specialize (IH (net_Close (os_fd os) w2)). cbv zeta in IH.
        destruct H as [Hr [Ho Hf]].
        cbn [net_Close ev trace resolved released open_sockets] in IH.
        rewrite Hr, Ho, Hf, Hopen in IH. cbn [remove_first] in IH.
        rewrite Z.eqb_refl in IH. subst w1; cbn in IH. exact IH.
      * destruct H as [Hr [Ho Hf]]. rewrite Hr, Ho, Hf, Hopen.
        cbn [remove_first]. rewrite Z.eqb_refl. subst w1; cbn; auto.
Qed.

End ConnectLoop.

(** ** Resource discipline of a whole call *)




(** C5 (the code departs from it). With "socks" set, no credentials and a
    proxy that selects user/password, the handshake started by connect
    reads the length of the absent user name: the call stops there, before
    the [net_Close] that follows a failed handshake.  Socket 8, created
    during the call and connected to the proxy, is left open and is not
    handed back; the resolver result had been released. *)
Theorem connect_fault_leaves_socket_open :
  let rw := net_Connect Scenario.proxied "host" 0 0 0
              Scenario.proxy_wants_password in
  fst rw = Fault NullDeref /\
  open_sockets (trace (snd rw)) = [8] /\
  closed (trace (snd rw)) = [] /\
  released (trace (snd rw)) = resolved (trace (snd rw)).
Proof. repeat split; reflexivity. Qed.

(** ** Candidates in order *)

Lemma poll_loop_closed os fd rem quot : forall k w,
  let rw := poll_loop os fd rem quot k w in
  tried (trace (snd rw)) = tried (trace w) /\
  (fst rw <> AttemptAbort -> closed (trace (snd rw)) = closed (trace w)).
Proof.
  induction quot as [|q IH]; intros k w; cbn [poll_loop].
  - destruct (os_die os k); [cbn; split; [reflexivity|congruence]|].
    destruct (os_poll os k) as [i_ret net_errno].
    destruct (i_ret =? 1); [cbn; auto|].
    destruct ((i_ret =? -1) && negb (net_errno =? EINTR)); cbn; auto.
  - destruct (os_die os k); [cbn; split; [reflexivity|congruence]|].
    destruct (os_poll os k) as [i_ret net_errno].
    destruct (i_ret =? 1); [cbn; auto|].
    destruct ((i_ret =? -1) && negb (net_errno =? EINTR)); [cbn; auto|].
    exact (IH (S k) (ev (EvPoll fd (if 0 <? Z.of_nat (S q) then 100 else rem)) w)).
Qed.

Lemma attempt_closed e os fd w :
  let rw := attempt e os fd w in
  tried (trace (snd rw)) = tried (trace w) /\
  (fst rw <> AttemptAbort -> closed (trace (snd rw)) = closed (trace w)).
Proof.
  unfold attempt. destruct (os_connect os) as [ret net_errno].
  destruct (negb (ret =? 0)); [|cbn; auto].
  destruct (negb (net_errno =? EINPROGRESS)); [cbn; auto|].
  unfold wait_connected.
  set (w1 := msg Dbg "connection: %m" (ev (EvConnect fd) w)).
  set (tw := if var_GetInteger e "ipv4-timeout" <? 0
             then (0, msg Err "invalid negative value for ipv4-timeout" w1)
             else (var_GetInteger e "ipv4-timeout", w1)).
  assert (Htw : tried (trace (snd tw)) = tried (trace w)
                /\ closed (trace (snd tw)) = closed (trace w))
    by (subst tw; destruct (_ <? 0); cbn; auto).
  destruct tw as [timeout w2]. cbn [snd] in Htw. destruct Htw as [Ht Hc].
  pose proof (poll_loop_closed os fd (Z.rem timeout 100)
                (Z.to_nat (Z.quot timeout 100)) 0%nat w2) as H.
  cbv zeta in H. rewrite Ht, Hc in H.
  destruct (poll_loop _ _ _ _ _ _) as [[] w3]; cbn [fst snd] in *;
    try exact H.
  destruct (os_sockopt os) as [r v].
  destruct ((r =? -1) || negb (v =? 0)); cbn [fst snd];
    (split; [apply H | intros _; apply H; discriminate]).
Qed.

(** The end of an attempt does not depend on what happened before it. *)
Lemma poll_loop_end os fd rem quot : forall k w w',
  fst (poll_loop os fd rem quot k w) = fst (poll_loop os fd rem quot k w').
Proof.
  induction quot as [|q IH]; intros k w w'; cbn [poll_loop];
    destruct (os_die os k); try reflexivity;
    destruct (os_poll os k) as [i_ret net_errno];
    destruct (i_ret =? 1); try reflexivity;
    destruct ((i_ret =? -1) && negb (net_errno =? EINTR)); try reflexivity.
  apply IH.
Qed.

Lemma attempt_end_indep e os fd w w' :
  fst (attempt e os fd w) = fst (attempt e os fd w').
Proof.
  unfold attempt. destruct (os_connect os) as [ret net_errno].
  destruct (negb (ret =? 0)); [|reflexivity].
  destruct (negb (net_errno =? EINPROGRESS)); [reflexivity|].
  unfold wait_connected.
  destruct (var_GetInteger e "ipv4-timeout" <? 0).
  - match goal with
    | |- fst (match poll_loop ?o ?f ?r ?q ?k ?a with _ => _ end)
         = fst (match poll_loop _ _ _ _ _ ?b with _ => _ end) =>
        pose proof (poll_loop_end o f r q k a b) as H;
        destruct (poll_loop o f r q k a) as [[] wa];
        destruct (poll_loop o f r q k b) as [[] wb];
        cbn [fst] in H; try discriminate H; try reflexivity
    end.
    destruct (os_sockopt os) as [r v]; destruct ((r =? -1) || negb (v =? 0));
      reflexivity.
  - match goal with
    | |- fst (match poll_loop ?o ?f ?r ?q ?k ?a with _ => _ end)
         = fst (match poll_loop _ _ _ _ _ ?b with _ => _ end) =>
        pose proof (poll_loop_end o f r q k a b) as H;
        destruct (poll_loop o f r q k a) as [[] wa];
        destruct (poll_loop o f r q k b) as [[] wb];
        cbn [fst] in H; try discriminate H; try reflexivity
    end.
    destruct (os_sockopt os) as [r v]; destruct ((r =? -1) || negb (v =? 0));
      reflexivity.
Qed.

Lemma attempt_outcome_eq e os w :
  fst (attempt e os (os_fd os) w) = attempt_outcome e os.
Proof. apply attempt_end_indep. Qed.

(** C6 (amended). With the resolver answering A, B, C and possibly more,
    where no socket can be created for A, the attempt on B fails and the
    attempt on C succeeds, a call without proxy returns the socket of C;
    exactly one socket was closed, that of B (A never had one); and
    [net_Socket] was called three times: nothing after C was tried. *)
Theorem connect_third_candidate e psz_host i_port type proto inbox script
    aiA osA aiB osB aiC osC rest :
  var_CreateGetNonEmptyString e "socks" = None ->
  vlc_getaddrinfo e psz_host (if i_port =? 0 then 80 else i_port)
                  (mkHints 0 SOCK_STREAM)
    = (0, (aiA, osA) :: (aiB, osB) :: (aiC, osC) :: rest) ->
  os_fd osA = -1 ->
  os_fd osB <> -1 -> attempt_outcome e osB = AttemptNext ->
  os_fd osC <> -1 -> attempt_outcome e osC = AttemptOk ->
  let rw := net_Connect e psz_host i_port type proto (mkWorld [] inbox script) in
  fst rw = Ret (os_fd osC) /\
  closed (trace (snd rw)) = [os_fd osB] /\
  tried (trace (snd rw)) = 3%nat.
Proof.
  intros Hs Hres HA HB HBend HC HCend. cbv zeta.
  apply Z.eqb_neq in HB, HC.
  unfold net_Connect. rewrite Hs, Hres. cbn [negb Z.eqb].
  cbn [connect_loop]. rewrite HA. cbn [Z.eqb Pos.eqb]. rewrite HB.
  match goal with
  | |- context [attempt e osB (os_fd osB) ?w] =>
      pose proof (attempt_outcome_eq e osB w) as EB;
      pose proof (attempt_closed e osB (os_fd osB) w) as QB;
      destruct (attempt e osB (os_fd osB) w) as [endB wB]
  end.
  cbn [fst snd] in EB, QB. rewrite HBend in EB. subst endB.
  rewrite HC.
  match goal with
  | |- context [attempt e osC (os_fd osC) ?w] =>
      pose proof (attempt_outcome_eq e osC w) as EC;
      pose proof (attempt_closed e osC (os_fd osC) w) as QC;
      destruct (attempt e osC (os_fd osC) w) as [endC wC]
  end.
  cbn [fst snd] in EC, QC. rewrite HCend in EC. subst endC.
  rewrite HC. cbn [fst snd vlc_freeaddrinfo msg ev trace closed tried].
  destruct QB as [TB CB], QC as [TC CC].
  rewrite (CC ltac:(discriminate)), TC.
  cbn [net_Close ev trace closed tried].
  rewrite (CB ltac:(discriminate)), TB. cbn. auto.
Qed.

Lemma connect_third_candidate_witness :
  let rw := net_Connect (Scenario.direct 250 Scenario.abc) "host" 8080 0 0
              Scenario.quiet_world in
  fst rw = Ret 8 /\ closed (trace (snd rw)) = [7] /\
  tried (trace (snd rw)) = 3%nat.
Proof.
  apply (connect_third_candidate (Scenario.direct 250 Scenario.abc)
           "host" 8080 0 0 [] []
           Scenario.ai Scenario.os_no_socket
           Scenario.ai (Scenario.os_refused 7)
           Scenario.ai (Scenario.os_connected 8)
           [(Scenario.ai, Scenario.os_connected 9)]);
    try reflexivity; discriminate.
Defined.

(** C6 as stated fails: in that very situation one socket is closed during
    the call, not two. *)
Lemma connect_third_candidate_two_closed_refuted :
  ~ (os_fd Scenario.os_no_socket = -1 ->
     attempt_outcome (Scenario.direct 250 Scenario.abc) (Scenario.os_refused 7)
       = AttemptNext ->
     attempt_outcome (Scenario.direct 250 Scenario.abc) (Scenario.os_connected 8)
       = AttemptOk ->
     let rw := net_Connect (Scenario.direct 250 Scenario.abc) "host" 8080 0 0
                 Scenario.quiet_world in
     fst rw = Ret 8 /\ List.length (closed (trace (snd rw))) = 2%nat).
Proof.
  intros H. specialize (H eq_refl eq_refl eq_refl). cbv zeta in H.
  destruct H as [_ H]. vm_compute in H. discriminate H.
Qed.

(** ** The handshake asked of the proxy *)

(** C7 (amended). With "socks" set and a socket connected to the proxy,
    connect runs the handshake on that socket with protocol version 5
    whatever the configuration holds, with the credentials of "socks-user"
    and "socks-pwd" and with the host and port of the call (port 0 read as
    80).  The handshake itself turns any version other than 4 and 5 into 5
    after a warning. *)
Theorem connect_handshake_version_5 e psz_host i_port type proto w
    s realhost realport ty pr w1 res i_handle w2 :
  var_CreateGetNonEmptyString e "socks" = Some s ->
  socks_target e s psz_host (if i_port =? 0 then 80 else i_port) type proto w
    = (Some (realhost, realport, ty, pr), w1) ->
  vlc_getaddrinfo e realhost realport (mkHints 0 SOCK_STREAM) = (0, res) ->
  connect_loop e ty pr res (ev (EvResolve realhost realport 0) w1)
    = (Some i_handle, w2) ->
  i_handle <> -1 ->
  net_Connect e psz_host i_port type proto w
    = socks_tunnel_as_specified e 5 i_handle psz_host
        (if i_port =? 0 then 80 else i_port) (vlc_freeaddrinfo w2)
  /\ forall fd v user passwd host port w',
       SocksHandshakeTCP e fd v user passwd host port w'
       = if (v =? 4) || (v =? 5)
         then SocksHandshakeTCP e fd v user passwd host port w'
         else SocksHandshakeTCP e fd 5 user passwd host port
                (msg Warn "invalid socks protocol version %d" w').
Proof.
  intros Hs Ht Hres Hloop Hh. split.
  - unfold net_Connect. rewrite Hs, Ht, Hres. cbn [negb Z.eqb].
    rewrite Hloop. apply Z.eqb_neq in Hh. rewrite Hh. reflexivity.
  - intros fd v user passwd host port w'.
    destruct (v =? 4) eqn:H4; [reflexivity|].
    destruct (v =? 5) eqn:H5; [reflexivity|].
    cbn [orb]. unfold SocksHandshakeTCP. rewrite H4, H5. reflexivity.
Qed.

Lemma connect_handshake_version_5_witness :
  net_Connect Scenario.proxied "host" 0 0 0 Scenario.proxy_grants
  = socks_tunnel_as_specified Scenario.proxied 5 8 "host" 80
      (vlc_freeaddrinfo
         (snd (connect_loop Scenario.proxied SOCK_STREAM IPPROTO_TCP
                 [(Scenario.ai, Scenario.os_connected 8)]
                 (ev (EvResolve "proxy" 1080 0)
                    (snd (socks_target Scenario.proxied "proxy:1080" "host" 80
                            0 0 Scenario.proxy_grants)))))).
Proof.
  apply (connect_handshake_version_5 Scenario.proxied "host" 0 0 0
           Scenario.proxy_grants "proxy:1080" "proxy" 1080
           SOCK_STREAM IPPROTO_TCP
           (snd (socks_target Scenario.proxied "proxy:1080" "host" 80 0 0
                   Scenario.proxy_grants))
           [(Scenario.ai, Scenario.os_connected 8)] 8);
    try reflexivity; discriminate.
Defined.

(** C7 as stated fails: with every integer variable of the object set to 4,
    the handshake connect runs is not the one of version 4. *)
Lemma connect_handshake_configured_version_refuted :
  ~ (forall w2,
       connect_loop Scenario.proxied SOCK_STREAM IPPROTO_TCP
         [(Scenario.ai, Scenario.os_connected 8)]
         (ev (EvResolve "proxy" 1080 0)
            (snd (socks_target Scenario.proxied "proxy:1080" "host" 80 0 0
                    Scenario.proxy_grants)))
       = (Some 8, w2) ->
       net_Connect Scenario.proxied "host" 0 0 0 Scenario.proxy_grants
       = socks_tunnel_as_specified Scenario.proxied
           (var_GetInteger Scenario.proxied "socks-version") 8 "host" 80
           (vlc_freeaddrinfo w2)).
Proof.
  intros H. specialize (H _ eq_refl). vm_compute in H. discriminate H.
Qed.

(** ** The bounded wait *)

Lemma slices_succ fd n w :
  slices fd (S n) w = slices fd n (ev (EvPoll fd 100) w).
Proof. unfold slices. apply Nat.iter_succ_r. Qed.

Lemma poll_loop_nothing_yet os fd rem :
  (forall k, nothing_yet (os_poll os k) = true) ->
  forall quot k w,
  poll_loop os fd rem quot k w =
  match first_die os k quot with
  | None =>
      (AttemptNext,
       msg Warn "connection timed out" (ev (EvPoll fd rem) (slices fd quot w)))
  | Some j =>
      (AttemptAbort,
       vlc_freeaddrinfo
         (net_Close fd (msg Dbg "connection aborted" (slices fd j w))))
  end.
Proof.
  intros Hidle. induction quot as [|q IH]; intros k w;
    cbn [poll_loop first_die]; destruct (os_die os k); try reflexivity;
    pose proof (Hidle k) as Hk; unfold nothing_yet in Hk;
    destruct (os_poll os k) as [i_ret net_errno]; cbn [fst snd] in Hk;
    apply andb_true_iff in Hk; destruct Hk as [H1 H2];
    apply negb_true_iff in H1, H2; rewrite H1, H2.
  - reflexivity.
  - replace (0 <? Z.of_nat (S q)) with true by (symmetry; apply Z.ltb_lt; lia).
    rewrite IH. destruct (first_die os (S k) q) as [j|]; cbn [option_map];
      rewrite slices_succ; reflexivity.
Qed.

(** C8. With a timeout T that is not negative, a connection in progress and
    waits that report nothing but expiry or [EINTR], the loop looks at the
    liveness flag before every wait.  If the flag is never up, it waits
    floor(T/100) times 100 ms and once T mod 100 ms, logs the warning
    "connection timed out", closes the socket and goes on with the next
    address.  If the flag is first up at turn j, only j waits of 100 ms
    were made and the call ends there. *)
Theorem connect_wait_slices e type proto ai os ai_next w :
  0 <= var_GetInteger e "ipv4-timeout" ->
  os_fd os <> -1 ->
  fst (os_connect os) <> 0 ->
  snd (os_connect os) = EINPROGRESS ->
  (forall k, nothing_yet (os_poll os k) = true) ->
  let T := var_GetInteger e "ipv4-timeout" in
  let fd := os_fd os in
  let w1 :=
    msg Dbg "connection: %m"
      (ev (EvConnect fd)
         (ev (EvSocket (ai_family ai) (elvis type (ai_socktype ai))
                       (elvis proto (ai_protocol ai)) fd) w)) in
  connect_loop e type proto ((ai, os) :: ai_next) w =
  match first_die os 0 (Z.to_nat (T / 100)) with
  | None =>
      connect_loop e type proto ai_next
        (net_Close fd
           (msg Warn "connection timed out"
              (ev (EvPoll fd (T mod 100)) (slices fd (Z.to_nat (T / 100)) w1))))
  | Some j =>
      (None,
       vlc_freeaddrinfo
         (net_Close fd (msg Dbg "connection aborted" (slices fd j w1))))
  end.
Proof.
  intros HT Hfd Hret Herr Hidle. cbv zeta.
  apply Z.eqb_neq in Hfd, Hret.
  cbn [connect_loop]. rewrite Hfd. unfold attempt, wait_connected.
  destruct (os_connect os) as [ret net_errno]. cbn [fst snd] in Hret, Herr.
  rewrite Hret, Herr. cbn [negb]. rewrite Z.eqb_refl. cbn [negb].
  replace (var_GetInteger e "ipv4-timeout" <? 0) with false
    by (symmetry; apply Z.ltb_ge; exact HT).
  rewrite (poll_loop_nothing_yet os (os_fd os) _ Hidle).
  rewrite Z.quot_div_nonneg, Z.rem_mod_nonneg by lia.
  destruct (first_die os 0 _); reflexivity.
Qed.

Lemma connect_wait_slices_witness :
  polls (trace (snd (connect_loop
                       (Scenario.direct 250 [(Scenario.ai, Scenario.os_pending 8)])
                       0 0 [(Scenario.ai, Scenario.os_pending 8)]
                       Scenario.quiet_world)))
  = [50; 100; 100].
Proof.
  rewrite (connect_wait_slices
             (Scenario.direct 250 [(Scenario.ai, Scenario.os_pending 8)])
             0 0 Scenario.ai (Scenario.os_pending 8) [] Scenario.quiet_world);
    [reflexivity | cbn; lia | discriminate | discriminate | reflexivity
    | reflexivity].
Defined.

(** C10. With a negative "ipv4-timeout", a connection in progress, the
    liveness flag down and a wait that reports nothing, the attempt logs
    the error "invalid negative value for ipv4-timeout", waits on the
    socket once, for 0 ms, and gives up with the warning
    "connection timed out"; the loop then closes the socket and goes on
    with the next address, and returns -1 when there is none. *)
Theorem connect_negative_timeout e type proto ai os ai_next w :
  var_GetInteger e "ipv4-timeout" < 0 ->
  os_fd os <> -1 ->
  fst (os_connect os) <> 0 ->
  snd (os_connect os) = EINPROGRESS ->
  os_die os 0%nat = false ->
  nothing_yet (os_poll os 0%nat) = true ->
  let fd := os_fd os in
  let gave_up (w0 : world) :=
    msg Warn "connection timed out"
      (ev (EvPoll fd 0)
         (msg Err "invalid negative value for ipv4-timeout"
            (msg Dbg "connection: %m" (ev (EvConnect fd) w0)))) in
  let w1 :=
    ev (EvSocket (ai_family ai) (elvis type (ai_socktype ai))
                 (elvis proto (ai_protocol ai)) fd) w in
  (forall w0, attempt e os fd w0 = (AttemptNext, gave_up w0)) /\
  connect_loop e type proto [(ai, os)] w
    = (Some (-1), net_Close fd (gave_up w1)) /\
  connect_loop e type proto ((ai, os) :: ai_next) w
    = connect_loop e type proto ai_next (net_Close fd (gave_up w1)).
Proof.
  intros HT Hfd Hret Herr Hdie Hidle. cbv zeta.
  apply Z.eqb_neq in Hfd, Hret.
  assert (Hattempt : forall w0,
    attempt e os (os_fd os) w0
    = (AttemptNext,
       msg Warn "connection timed out"
         (ev (EvPoll (os_fd os) 0)
            (msg Err "invalid negative value for ipv4-timeout"
               (msg Dbg "connection: %m" (ev (EvConnect (os_fd os)) w0)))))).
  { intros w0. unfold attempt, wait_connected.
    destruct (os_connect os) as [ret net_errno]. cbn [fst snd] in Hret, Herr.
    rewrite Hret, Herr. cbn [negb]. rewrite Z.eqb_refl. cbn [negb].
    replace (var_GetInteger e "ipv4-timeout" <? 0) with true
      by (symmetry; apply Z.ltb_lt; exact HT).
    cbn [Z.quot Z.rem Z.to_nat Z.quotrem fst snd poll_loop]. rewrite Hdie.
    unfold nothing_yet in Hidle.
    destruct (os_poll os 0%nat) as [i_ret perr]. cbn [fst snd] in Hidle.
    apply andb_true_iff in Hidle. destruct Hidle as [H1 H2].
    apply negb_true_iff in H1, H2. rewrite H1, H2. reflexivity. }
  split; [exact Hattempt|].
  split; cbn [connect_loop]; rewrite Hfd, Hattempt; reflexivity.
Qed.

Lemma connect_negative_timeout_witness :
  connect_loop (Scenario.direct (-5) [(Scenario.ai, Scenario.os_pending 8)])
    0 0 [(Scenario.ai, Scenario.os_pending 8)] Scenario.quiet_world
  = (Some (-1),
     mkWorld [EvClose 8; EvMsg Warn "connection timed out"; EvPoll 8 0;
              EvMsg Err "invalid negative value for ipv4-timeout";
              EvMsg Dbg "connection: %m"; EvConnect 8;
              EvSocket AF_INET SOCK_STREAM IPPROTO_TCP 8] [] []).
Proof.
  apply (proj1 (proj2 (connect_negative_timeout
           (Scenario.direct (-5) [(Scenario.ai, Scenario.os_pending 8)])
           0 0 Scenario.ai (Scenario.os_pending 8) [] Scenario.quiet_world
           ltac:(cbn; lia) ltac:(discriminate) ltac:(discriminate)
           eq_refl eq_refl eq_refl))).
Defined.

(** ** Authentication with the proxy *)

(** C3 (the code departs from it). The first frame [SocksNegociate] writes
    offers the two methods no-auth and user/password when neither a user
    name nor a password is given, and the single method no-auth as soon as
    one of them is given: the reverse of the specified offer. *)
Theorem socks_offer_inverted fd user passwd incoming script :
  let sent :=
    first_write (trace (snd (SocksNegociate fd 5 user passwd
                               (mkWorld [] incoming script)))) in
  sent = match user, passwd with
         | None, None => [5; 2; 0; 2]
         | _, _ => [5; 1; 0]
         end
  /\ sent <> offer_as_specified user passwd.
Proof.
  cbv zeta.
  assert (H : first_write (trace (snd (SocksNegociate fd 5 user passwd
                                         (mkWorld [] incoming script))))
              = match user, passwd with
                | None, None => [5; 2; 0; 2]
                | _, _ => [5; 1; 0]
                end).
  { unfold SocksNegociate, net_Write, net_Read, msg, ev, first_write.
    cbn [Z.eqb Pos.eqb negb trace inbox wr_script].
    destruct user, passwd; repeat break_match; reflexivity. }
  split; [exact H|]. rewrite H.
  destruct user, passwd; discriminate.
Qed.

(** C4 (the code departs from it). Without user name and password, when
    the proxy selects user/password, [SocksNegociate] reaches
    [strlen (psz_socks_user)] with a null pointer: it does not return an
    error.  Only the method offer was written before that. *)
Theorem socks_password_selected_without_credentials fd v rest :
  SocksNegociate fd 5 None None (mkWorld [] (v :: 2 :: rest) [])
  = (Fault NullDeref,
     mkWorld [EvMsg Dbg "socks: v=%d method=%x"; EvRead fd 2;
              EvWrite fd [5; 2; 0; 2]] rest []).
Proof. reflexivity. Qed.

(** ** The wait of accept *)

(** The descriptors [accept_loop] hands to [poll] for an array of [n]
    listening sockets, and the entry it keeps for itself. *)
Lemma ufd_split (a : list Z) (evfd : Z) (n : nat) :
  map (fun i => mkPollfd (if (i <? n)%nat then nth i a 0 else evfd) POLLIN 0)
      (seq 0 (S n))
  = map (fun i => mkPollfd (nth i a 0) POLLIN 0) (seq 0 n)
    ++ [mkPollfd evfd POLLIN 0].
Proof.
  rewrite seq_S, map_app. cbn [map Nat.add]. rewrite Nat.ltb_irrefl.
  f_equal. apply map_ext_in. intros i Hi. apply in_seq in Hi.
  replace (i <? n)%nat with true by (symmetry; apply Nat.ltb_lt; lia).
  reflexivity.
Qed.

Lemma count_fds_firstn : forall (a : list Z) (n : nat),
  count_fds a = Some n ->
  map (fun i => nth i a 0) (seq 0 n) = firstn n a.
Proof.
  induction a as [|fd rest IH]; intros n H; cbn [count_fds] in H.
  - discriminate.
  - destruct (fd =? -1).
    + injection H as <-. reflexivity.
    + destruct (count_fds rest) as [m|]; [|discriminate].
      injection H as <-. cbn [seq map firstn nth]. f_equal.
      rewrite <- seq_shift, map_map. cbn [nth]. apply IH. reflexivity.
Qed.

Lemma firstn_exact {A} (l l' : list A) (n : nat) :
  List.length l = n -> firstn n (l ++ l') = l /\ skipn n (l ++ l') = l'.
Proof.
  intros <-. split.
  - rewrite firstn_app, Nat.sub_diag, firstn_all. cbn. apply app_nil_r.
  - rewrite skipn_app, Nat.sub_diag, skipn_all. reflexivity.
Qed.

(** What [poll] returns to [accept_loop]: it was given the listening
    sockets only, so the entry of the wait pipe comes back as it went in. *)
Lemma accept_poll (r : round) (a : list Z) (evfd timeout : Z) (n : nat)
    (st : listener) :
  count_fds a = Some n ->
  poll r (map (fun i => mkPollfd (if (i <? n)%nat then nth i a 0 else evfd)
                          POLLIN 0) (seq 0 (S n))) n timeout st
  = let st1 := note (EvPollSet (firstn n a) timeout) st in
    let before :=
      map (fun i => mkPollfd (if (i <? n)%nat then nth i a 0 else evfd)
                             POLLIN 0) (seq 0 (S n)) in
    match r_poll_errno r with
    | Some e => (-1, before, set_errno e st1)
    | None =>
        let seen := map (fun fd => mkPollfd fd POLLIN (r_revents r fd))
                        (firstn n a) in
        (Z.of_nat (List.length
                     (filter (fun p => negb (pfd_revents p =? 0)) seen)),
         seen ++ [mkPollfd evfd POLLIN 0], st1)
    end.
Proof.
  intros Hn. cbv zeta. unfold poll. rewrite ufd_split.
  destruct (firstn_exact (map (fun i => mkPollfd (nth i a 0) POLLIN 0) (seq 0 n))
              [mkPollfd evfd POLLIN 0] n) as [Hf Hs].
  { rewrite length_map, length_seq. reflexivity. }
  rewrite Hf, Hs, !map_map. cbn [pfd_fd pfd_events].
  rewrite <- (count_fds_firstn a n Hn), !map_map.
  destruct (r_poll_errno r); reflexivity.
Qed.

Lemma seen_nth (r : round) (fds : list Z) (evfd : Z) (n : nat) d :
  List.length fds = n ->
  nth n (map (fun fd => mkPollfd fd POLLIN (r_revents r fd)) fds
         ++ [mkPollfd evfd POLLIN 0]) d
  = mkPollfd evfd POLLIN 0.
Proof.
  intros H. rewrite app_nth2; rewrite length_map, H; [|lia].
  rewrite Nat.sub_diag. reflexivity.
Qed.

Lemma count_fds_length : forall (a : list Z) (n : nat),
  count_fds a = Some n -> List.length (firstn n a) = n.
Proof.
  intros a n H. rewrite <- (count_fds_firstn a n H), length_map, length_seq.
  reflexivity.
Qed.

(** No run of [accept_loop] ends through the branch of the wait pipe. *)
Lemma accept_never_cancelled bo evfd timeout : forall rounds st,
  fst (accept_loop bo evfd timeout rounds st) <> Some (Ret Cancelled).
Proof.
  induction rounds as [|r later IH]; intros st; cbn [accept_loop].
  - discriminate.
  - destruct (r_alive r); cbn [negb]; [|discriminate].
    destruct (count_fds (pi_fd st)) as [n|] eqn:Hn; [|discriminate].
    rewrite (accept_poll r (pi_fd st) evfd timeout n st Hn). cbv zeta.
    destruct (r_poll_errno r) as [e|].
    + cbn [Z.eqb]. discriminate.
    + rewrite (seen_nth r _ evfd n _ (count_fds_length _ _ Hn)).
      cbn [pfd_revents Z.eqb negb].
      destruct (_ =? -1); [discriminate|].
      destruct (_ =? 0); [discriminate|].
      destruct (scan bo r n 0 _ _) as [[fd|] st2]; [discriminate|].
      apply IH.
Qed.

Lemma seen_count (r : round) : forall fds : list Z,
  List.length (filter (fun p => negb (pfd_revents p =? 0))
                 (map (fun fd => mkPollfd fd POLLIN (r_revents r fd)) fds))
  = O
  <-> forallb (fun fd => r_revents r fd =? 0) fds = true.
Proof.
  induction fds as [|fd rest IH]; cbn [map filter forallb pfd_revents].
  - split; reflexivity.
  - destruct (r_revents r fd =? 0); cbn [negb andb List.length].
    + exact IH.
    + split; discriminate.
Qed.

(** C1 (the code departs from it). [poll] is given the [n] listening
    sockets and not the entry [n] of the wait pipe.  With the cancellation
    raised and no listener ready, the wait on descriptor 3 alone expires
    and the call returns -1 from the switch: the signal is neither seen nor
    consumed.  No run at all ends through the cancellation branch. *)
Theorem accept_misses_cancellation bo :
  net_Accept bo Scenario.evfd 1000000 [Scenario.cancel_raised]
             Scenario.one_listener
  = (Some (Ret WaitFailed), mkListener [3; -1] 0 [EvPollSet [3] 1000])
  /\ forall evfd i_wait rounds st,
       fst (net_Accept bo evfd i_wait rounds st) <> Some (Ret Cancelled).
Proof.
  split.
  - destruct bo; reflexivity.
  - intros. apply accept_never_cancelled.
Qed.

(** C2 (the code departs from it). [memmove] is asked to move
    [n - (i + 1)] bytes, not that many [int]s.  With listeners 3, 4, 5 all
    ready, the call services socket 3 and leaves the array 4, 4, 3 (least
    significant byte first) or 3, 4, 3 (most significant byte first):
    listener 5 is lost, where the rotation would give 4, 5, 3. *)
Theorem accept_rotation_loses_listener :
  let run bo :=
    net_Accept bo Scenario.evfd 1000000 [Scenario.all_ready]
               Scenario.three_listeners in
  fst (run LittleEndian) = Some (Ret (Accepted 103)) /\
  pi_fd (snd (run LittleEndian)) = [4; 4; 3; -1] /\
  pi_fd (snd (run BigEndian)) = [3; 4; 3; -1] /\
  rotated_as_specified [3; 4; 5] 0 ++ [-1] = [4; 5; 3; -1].
Proof. repeat split; reflexivity. Qed.

(** C9 (amended). In a turn where the object is alive, accept returns -1
    at once exactly when the wait fails, with [EINTR] or with any other
    error, or finds no listening socket ready.  It does so whatever the
    next turns would bring: the wait is not made again.  An error other
    than [EINTR] is logged first; [EINTR] is not.  The wait was asked for
    the milliseconds of [i_wait] as they fit an [int], or without limit
    when [i_wait] is negative. *)
Theorem accept_wait_failure_returns bo evfd i_wait r st n :
  r_alive r = true ->
  count_fds (pi_fd st) = Some n ->
  let timeout := if i_wait <? 0 then -1 else to_int (Z.quot i_wait 1000) in
  let st1 := note (EvPollSet (firstn n (pi_fd st)) timeout) st in
  (fst (net_Accept bo evfd i_wait [r] st) = Some (Ret WaitFailed)
   <-> wait_fails r (firstn n (pi_fd st)) = true)
  /\ (wait_fails r (firstn n (pi_fd st)) = true ->
      forall later,
      net_Accept bo evfd i_wait (r :: later) st
      = (Some (Ret WaitFailed),
         match r_poll_errno r with
         | Some e =>
             if e =? EINTR then set_errno e st1
             else note (EvMsg Err "poll error: %m") (set_errno e st1)
         | None => st1
         end)).
Proof.
  intros Halive Hn. cbv zeta. unfold net_Accept, wait_fails.
  set (timeout := if i_wait <? 0 then -1 else to_int (Z.quot i_wait 1000)).
  cbn [accept_loop]. rewrite Halive, Hn. cbn [negb].
  rewrite (accept_poll r (pi_fd st) evfd timeout n st Hn). cbv zeta.
  destruct (r_poll_errno r) as [e|].
  - cbn [Z.eqb set_errno errno]. split; [split; reflexivity|].
    intros _ later. destruct (e =? EINTR); reflexivity.
  - rewrite (seen_nth r _ evfd n _ (count_fds_length _ _ Hn)).
    cbn [pfd_revents Z.eqb negb].
    pose proof (seen_count r (firstn n (pi_fd st))) as Hc.
    destruct (List.length _) as [|m] eqn:Hlen.
    + cbn [Z.of_nat Z.eqb]. split; [split; [intros _; apply Hc|]; reflexivity|].
      intros _ later. reflexivity.
    + replace (Z.of_nat (S m) =? -1) with false by (symmetry; apply Z.eqb_neq; lia).
      replace (Z.of_nat (S m) =? 0) with false by (symmetry; apply Z.eqb_neq; lia).
      split.
      * split.
        -- destruct (scan bo r n 0 _ _) as [[fd|] st2]; discriminate.
        -- intros H. apply Hc in H. discriminate H.
      * intros H. apply Hc in H. discriminate H.
Qed.

Lemma accept_wait_failure_returns_witness :
  net_Accept LittleEndian Scenario.evfd 1000000
             [Scenario.interrupted; Scenario.all_ready] Scenario.three_listeners
  = (Some (Ret WaitFailed),
     mkListener [3; 4; 5; -1] EINTR [EvPollSet [3; 4; 5] 1000]).
Proof.
  apply (proj2 (accept_wait_failure_returns LittleEndian Scenario.evfd 1000000
                  Scenario.interrupted Scenario.three_listeners 3
                  eq_refl eq_refl) eq_refl [Scenario.all_ready]).
Defined.

(** C9 as stated fails: a wait interrupted by a signal makes the call
    return -1 at once, although a second turn would have accepted a
    connection. *)
Lemma accept_eintr_returns_at_once_refuted :
  ~ (fst (net_Accept LittleEndian Scenario.evfd 1000000
            [Scenario.interrupted; Scenario.all_ready] Scenario.three_listeners)
     = Some (Ret WaitFailed)
     <-> returns_at_once_as_specified Scenario.interrupted [3; 4; 5] = true).
Proof.
  intros [H _]. specialize (H eq_refl). vm_compute in H. discriminate H.
Qed.

(** * Further properties of the code *)

(** ** Socket input and output *)

Lemma net_Write_ok fd buffer i_len w :
  all_writes_succeed w = true ->
  net_Write fd buffer i_len w
  = (i_len,
     mkWorld (EvWrite fd (firstn (Z.to_nat i_len) buffer) :: trace w)
             (inbox w) (tl (wr_script w)))
  /\ all_writes_succeed
       (mkWorld (EvWrite fd (firstn (Z.to_nat i_len) buffer) :: trace w)
                (inbox w) (tl (wr_script w))) = true.
Proof.
  unfold all_writes_succeed, net_Write. cbn [wr_script].
  destruct (wr_script w) as [|[] rest]; cbn [forallb andb tl]; intros H;
    try discriminate H; auto.
Qed.

Lemma net_Read_ok fd i_len w bytes rest :
  inbox w = bytes ++ rest ->
  Z.of_nat (List.length bytes) = i_len ->
  net_Read fd i_len w
  = (i_len, bytes, mkWorld (EvRead fd i_len :: trace w) rest (wr_script w)).
Proof.
  intros Hin <-. unfold net_Read. rewrite Nat2Z.id, Hin.
  destruct (firstn_exact bytes rest (List.length bytes) eq_refl) as [Hf Hs].
  rewrite Hf, Hs. reflexivity.
Qed.

Lemma bytes_of_length s : List.length (bytes_of s) = String.length s.
Proof.
  unfold bytes_of. rewrite length_map.
  induction s as [|c s IH]; cbn; [reflexivity | rewrite IH; reflexivity].
Qed.

Lemma memcpy_length s n :
  0 <= n <= strlen s -> List.length (memcpy s n) = Z.to_nat n.
Proof.
  intros H. unfold memcpy, strlen in *.
  rewrite length_firstn, bytes_of_length. lia.
Qed.

Lemma strlen_min s : 0 <= Z.min (strlen s) 255 <= strlen s.
Proof. unfold strlen. lia. Qed.

Lemma uint8_small v : 0 <= v <= 255 -> uint8 v = v.
Proof. intros H. unfold uint8. apply Z.mod_small. lia. Qed.

Lemma SetWBE_port v :
  0 <= v < 65536 -> SetWBE v = [v / 256; v mod 256].
Proof.
  intros H. unfold SetWBE, uint8. rewrite Z.shiftr_div_pow2 by lia.
  change (2 ^ 8) with 256. rewrite (Z.mod_small (v / 256)); [reflexivity|].
  split; [apply Z.div_pos; lia | apply Z.div_lt_upper_bound; lia].
Qed.

Lemma net_Write_writes fd buffer i_len w :
  writes (trace (snd (net_Write fd buffer i_len w)))
  = firstn (Z.to_nat i_len) buffer :: writes (trace w).
Proof. unfold net_Write. repeat break_match; reflexivity. Qed.

(** ** The SOCKS5 request *)

(** X1. The SOCKS5 request is one write of 5, 1, 0, 3, the host length,
    the host name cut to 255 bytes and the port, high byte first: 7 bytes
    more than the host part, 262 at most. *)
Theorem socks5_request_frame fd host port w :
  0 <= port < 65536 ->
  let hlen := Z.min (strlen host) 255 in
  let frame :=
    [5; 1; 0; 3; hlen] ++ firstn (Z.to_nat hlen) (bytes_of host)
    ++ [port / 256; port mod 256] in
  writes (trace (snd (socks5_request fd host port w)))
  = frame :: writes (trace w)
  /\ Z.of_nat (List.length frame) = 7 + hlen
  /\ (List.length frame <= 262)%nat.
Proof.
  intros Hport. cbv zeta.
  pose proof (strlen_min host) as Hmin.
  pose proof (memcpy_length host _ Hmin) as Hlen. unfold memcpy in Hlen.
  assert (Hsize : Z.of_nat (List.length
            ([5; 1; 0; 3; Z.min (strlen host) 255]
             ++ firstn (Z.to_nat (Z.min (strlen host) 255)) (bytes_of host)
             ++ [port / 256; port mod 256])) = 7 + Z.min (strlen host) 255).
  { rewrite !length_app, Hlen. cbn [List.length]. lia. }
  split; [|split; [exact Hsize | lia]].
  unfold socks5_request.
  rewrite uint8_small, SetWBE_port by lia. unfold memcpy.
  match goal with
  | |- context [net_Write fd ?b ?n w] =>
      pose proof (net_Write_writes fd b n w) as Hw;
      destruct (net_Write fd b n w) as [k w1]
  end.
  cbn [snd] in Hw. rewrite firstn_all2 in Hw by lia.
  unfold net_Read, msg, ev. repeat break_match; cbn [snd trace writes]; exact Hw.
Qed.

Lemma socks5_request_frame_witness :
  writes (trace (snd (socks5_request 8 "host" 80 Example.socks5_domain_reply)))
  = [[5; 1; 0; 3; 4; 104; 111; 115; 116; 0; 80]].
Proof.
  apply (socks5_request_frame 8 "host" 80 Example.socks5_domain_reply).
  lia.
Defined.

Lemma net_Read_count fd i_len w :
  0 <= i_len ->
  let r := net_Read fd i_len w in
  ((fst (fst r) =? i_len) = (Z.to_nat i_len <=? List.length (inbox w))%nat)
  /\ inbox (snd r) = skipn (Z.to_nat i_len) (inbox w).
Proof.
  intros H. cbv zeta. unfold net_Read. cbn [fst snd inbox]. split; [|reflexivity].
  rewrite length_firstn.
  destruct (Nat.leb_spec (Z.to_nat i_len) (List.length (inbox w))).
  - apply Z.eqb_eq. lia.
  - apply Z.eqb_neq. lia.
Qed.

(** X2. After a SOCKS5 reply header that reports success, the bound
    address is read and dropped: 3 + 2 more bytes for an IPv4 address,
    the announced length + 2 for a domain name, 15 + 2 for an IPv6
    address, and never more.  Another address type fails with nothing
    more read; too few bytes fail. *)
Theorem socks5_reply_consumed fd host port w ver rsv atyp len0 tail :
  all_writes_succeed w = true ->
  inbox w = ver :: 0 :: rsv :: atyp :: len0 :: tail ->
  0 <= len0 ->
  let rw := socks5_request fd host port w in
  match (if atyp =? 1 then Some 5
         else if atyp =? 3 then Some (len0 + 2)
         else if atyp =? 4 then Some 17 else None) with
  | None => fst rw = Ret VLC_EGENERIC /\ inbox (snd rw) = tail
  | Some k =>
      if (Z.to_nat k <=? List.length tail)%nat
      then fst rw = Ret VLC_SUCCESS /\ inbox (snd rw) = skipn (Z.to_nat k) tail
      else fst rw = Ret VLC_EGENERIC
  end.
Proof.
  intros Hw Hin Hlen. cbv zeta. unfold socks5_request.
  match goal with
  | |- context [net_Write fd ?b ?n w] =>
      destruct (net_Write_ok fd b n w Hw) as [E _]; rewrite E; clear E
  end.
  rewrite Z.eqb_refl. cbn [negb].
  match goal with
  | |- context [net_Read fd 5 ?w1] =>
      rewrite (net_Read_ok fd 5 w1 [ver; 0; rsv; atyp; len0] tail Hin eq_refl)
  end.
  cbn [Z.eqb Pos.eqb negb nth msg ev].
  assert (Hread : forall k w1, 0 <= k -> inbox w1 = tail ->
    let rw := (let '(n, _, w2) := net_Read fd k w1 in
               if negb (n =? k) then (Ret VLC_EGENERIC, w2)
               else (Ret VLC_SUCCESS, w2)) in
    if (Z.to_nat k <=? List.length tail)%nat
    then fst rw = Ret VLC_SUCCESS /\ inbox (snd rw) = skipn (Z.to_nat k) tail
    else fst rw = Ret VLC_EGENERIC).
  { intros k w1 Hk Hw1. cbv zeta.
    pose proof (net_Read_count fd k w1 Hk) as H. cbv zeta in H.
    destruct (net_Read fd k w1) as [[n got] w2]. cbn [fst snd] in H.
    destruct H as [H1 H2]. rewrite Hw1 in H1, H2. rewrite H1.
    destruct (Z.to_nat k <=? List.length tail)%nat; cbn [negb fst snd]; auto. }
  destruct (atyp =? 1); [apply Hread; [lia|reflexivity]|].
  destruct (atyp =? 3); [apply Hread; [lia|reflexivity]|].
  destruct (atyp =? 4); [apply Hread; [lia|reflexivity]|].
  cbn. auto.
Qed.

Lemma socks5_reply_consumed_witness :
  fst (socks5_request 8 "host" 80 Example.socks5_domain_reply) = Ret VLC_SUCCESS
  /\ inbox (snd (socks5_request 8 "host" 80 Example.socks5_domain_reply)) = [42].
Proof.
  apply (socks5_reply_consumed 8 "host" 80 Example.socks5_domain_reply
           5 0 3 3 [97; 98; 99; 0; 80; 42] eq_refl eq_refl).
  lia.
Defined.

(** X3. A SOCKS5 reply whose second byte is not zero makes the request
    fail with the error "socks: CONNECT request failed" (the message ends
    with a line feed); the five bytes of
    the header are all that was read. *)
Theorem socks5_request_rejected fd host port w ver reply rsv atyp len0 tail :
  all_writes_succeed w = true ->
  inbox w = ver :: reply :: rsv :: atyp :: len0 :: tail ->
  reply <> 0 ->
  let rw := socks5_request fd host port w in
  fst rw = Ret VLC_EGENERIC /\ inbox (snd rw) = tail /\
  logged Err (String.append "socks: CONNECT request failed" line_feed)
    (trace (snd rw)).
Proof.
  intros Hw Hin Hrep. cbv zeta. unfold socks5_request.
  match goal with
  | |- context [net_Write fd ?b ?n w] =>
      destruct (net_Write_ok fd b n w Hw) as [E _]; rewrite E; clear E
  end.
  rewrite Z.eqb_refl. cbn [negb].
  match goal with
  | |- context [net_Read fd 5 ?w1] =>
      rewrite (net_Read_ok fd 5 w1 [ver; reply; rsv; atyp; len0] tail Hin eq_refl)
  end.
  cbn [Z.eqb Pos.eqb negb nth]. apply Z.eqb_neq in Hrep. rewrite Hrep.
  cbn. unfold logged. cbn. auto.
Qed.

Lemma socks5_request_rejected_witness :
  fst (socks5_request 8 "host" 80 (mkWorld [] [5; 5; 0; 1; 0; 0; 0; 0; 0; 0] []))
  = Ret VLC_EGENERIC.
Proof.
  apply (socks5_request_rejected 8 "host" 80
           (mkWorld [] [5; 5; 0; 1; 0; 0; 0; 0; 0; 0] [])
           5 5 0 1 0 [0; 0; 0; 0; 0] eq_refl eq_refl).
  discriminate.
Defined.

(** ** The SOCKS4 request *)

(** X4. With protocol version 4 the credentials play no part.  When the
    host resolves to the IPv4 address a.b.c.d, the handshake writes the
    nine bytes 4, 1, the port (high byte first), a, b, c, d, 0, reads eight
    bytes and succeeds exactly when the second is 90; the resolver result
    is released. *)
Theorem socks4_handshake e fd user passwd host port w ai os more a b c d
    reply rest :
  vlc_getaddrinfo e host 0 (mkHints AF_INET 0) = (0, (ai, os) :: more) ->
  sin_addr ai = [a; b; c; d] ->
  0 <= port < 65536 ->
  all_writes_succeed w = true ->
  inbox w = reply ++ rest ->
  List.length reply = 8%nat ->
  let rw := SocksHandshakeTCP e fd 4 user passwd host port w in
  fst rw = Ret (if nth 1 reply 0 =? 90 then VLC_SUCCESS else VLC_EGENERIC) /\
  writes (trace (snd rw))
    = [4; 1; port / 256; port mod 256; a; b; c; d; 0] :: writes (trace w) /\
  inbox (snd rw) = rest /\
  resolved (trace (snd rw)) = S (resolved (trace w)) /\
  released (trace (snd rw)) = S (released (trace w)).
Proof.
  intros Hres Haddr Hport Hw Hin Hlen. cbv zeta.
  unfold SocksHandshakeTCP. cbn [Z.eqb Pos.eqb negb andb].
  unfold socks4_request. rewrite Hres, Haddr, SetWBE_port by lia.
  cbn [Z.eqb negb firstn app].
  match goal with
  | |- context [net_Write fd ?b ?n ?w0] =>
      destruct (net_Write_ok fd b n w0 Hw) as [E _]; rewrite E; clear E
  end.
  cbn [Z.eqb Pos.eqb negb].
  match goal with
  | |- context [net_Read fd 8 ?w1] =>
      rewrite (net_Read_ok fd 8 w1 reply rest Hin)
        by (rewrite Hlen; reflexivity)
  end.
  cbn [Z.eqb Pos.eqb negb].
  destruct (nth 1 reply 0 =? 90); cbn; auto.
Qed.

Lemma socks4_handshake_witness :
  fst (SocksHandshakeTCP Example.resolving 8 4 None None "host" 80
         Example.socks4_grants) = Ret VLC_SUCCESS.
Proof.
  apply (socks4_handshake Example.resolving 8 None None "host" 80
           Example.socks4_grants Scenario.ai (Scenario.os_connected 8) []
           192 0 2 1 [0; 90; 0; 80; 192; 0; 2; 1] []);
    try reflexivity; lia.
Defined.

(** X5. With protocol version 4, a host that does not resolve to an IPv4
    address makes the handshake fail before anything is written to or read
    from the socket. *)
Theorem socks4_unresolved e fd user passwd host port w i_val res :
  vlc_getaddrinfo e host 0 (mkHints AF_INET 0) = (i_val, res) ->
  i_val <> 0 ->
  SocksHandshakeTCP e fd 4 user passwd host port w
  = (Ret VLC_EGENERIC, ev (EvResolve host 0 i_val) w).
Proof.
  intros Hres Hval. apply Z.eqb_neq in Hval.
  unfold SocksHandshakeTCP. cbn [Z.eqb Pos.eqb negb andb].
  unfold socks4_request. rewrite Hres, Hval. reflexivity.
Qed.

Lemma socks4_unresolved_witness :
  writes (trace (snd (SocksHandshakeTCP Example.unresolved 8 4 None None
                        "host" 80 Scenario.quiet_world))) = [].
Proof.
  rewrite (socks4_unresolved Example.unresolved 8 None None "host" 80
             Scenario.quiet_world (-2) []); [reflexivity|reflexivity|discriminate].
Defined.

(** ** The authentication exchange *)

(** X6. With a user name and a password, when the proxy selects
    user/password, [SocksNegociate] writes 5, the user length, the user
    name, the password length, the password, each cut to 255 bytes, which
    is 513 bytes at most and fits the buffer of 640; it succeeds exactly
    when the status byte of the answer is zero. *)
Theorem socks_password_exchange fd user passwd w ver ver' status rest :
  all_writes_succeed w = true ->
  inbox w = ver :: 2 :: ver' :: status :: rest ->
  let ulen := Z.min (strlen user) 255 in
  let plen := Z.min (strlen passwd) 255 in
  let frame :=
    [5; ulen] ++ firstn (Z.to_nat ulen) (bytes_of user)
    ++ [plen] ++ firstn (Z.to_nat plen) (bytes_of passwd) in
  let rw := SocksNegociate fd 5 (Some user) (Some passwd) w in
  fst rw = Ret (if status =? 0 then VLC_SUCCESS else VLC_EGENERIC) /\
  writes (trace (snd rw)) = frame :: [5; 1; 0] :: writes (trace w) /\
  inbox (snd rw) = rest /\
  Z.of_nat (List.length frame) = 3 + ulen + plen /\
  (List.length frame <= 513)%nat.
Proof.
  intros Hw Hin. cbv zeta.
  pose proof (strlen_min user) as Hu. pose proof (strlen_min passwd) as Hp.
  pose proof (memcpy_length user _ Hu) as Lu.
  pose proof (memcpy_length passwd _ Hp) as Lp. unfold memcpy in Lu, Lp.
  assert (Hsize : Z.of_nat (List.length
            ([5; Z.min (strlen user) 255]
             ++ firstn (Z.to_nat (Z.min (strlen user) 255)) (bytes_of user)
             ++ [Z.min (strlen passwd) 255]
             ++ firstn (Z.to_nat (Z.min (strlen passwd) 255)) (bytes_of passwd)))
          = 3 + Z.min (strlen user) 255 + Z.min (strlen passwd) 255).
  { rewrite !length_app, Lu, Lp. cbn [List.length]. lia. }
  unfold SocksNegociate. cbn [Z.eqb Pos.eqb negb].
  match goal with
  | |- context [net_Write fd ?b ?n w] =>
      destruct (net_Write_ok fd b n w Hw) as [E Hw1]; rewrite E; clear E
  end.
  cbn [Z.eqb Pos.eqb negb].
  match goal with
  | |- context [net_Read fd 2 ?w1] =>
      rewrite (net_Read_ok fd 2 w1 [ver; 2] (ver' :: status :: rest) Hin eq_refl)
  end.
  cbn [Z.eqb Pos.eqb negb nth]. rewrite !uint8_small by lia. unfold memcpy.
  match goal with
  | |- context [net_Write fd ?b ?n ?w2] =>
      destruct (net_Write_ok fd b n w2 Hw1) as [E _]; rewrite E; clear E
  end.
  rewrite Z.eqb_refl. cbn [negb].
  match goal with
  | |- context [net_Read fd 2 ?w3] =>
      rewrite (net_Read_ok fd 2 w3 [ver'; status] rest eq_refl eq_refl)
  end.
  cbn [Z.eqb Pos.eqb negb nth].
  rewrite firstn_all2 by lia.
  destruct (status =? 0); cbn [negb fst snd msg ev trace writes inbox uint8];
    repeat split; auto; lia.
Qed.

Lemma socks_password_exchange_witness :
  fst (SocksNegociate 8 5 (Some "u"%string) (Some "pw"%string)
         Example.proxy_accepts_password) = Ret VLC_SUCCESS.
Proof.
  apply (socks_password_exchange 8 "u" "pw" Example.proxy_accepts_password
           5 5 0 [] eq_refl eq_refl).
Defined.

(** X7. When the proxy selects a method other than user/password,
    [SocksNegociate] succeeds exactly when that method is no-auth; it has
    written the offer and nothing else, and read the two bytes of the
    answer and nothing else. *)
Theorem socks_method_selected fd user passwd w ver method rest :
  all_writes_succeed w = true ->
  inbox w = ver :: method :: rest ->
  method <> 2 ->
  let rw := SocksNegociate fd 5 user passwd w in
  fst rw = Ret (if method =? 0 then VLC_SUCCESS else VLC_EGENERIC) /\
  List.length (writes (trace (snd rw))) = S (List.length (writes (trace w))) /\
  inbox (snd rw) = rest.
Proof.
  intros Hw Hin Hm. cbv zeta. apply Z.eqb_neq in Hm.
  unfold SocksNegociate. cbn [Z.eqb Pos.eqb negb].
  match goal with
  | |- context [net_Write fd ?b ?n w] =>
      destruct (net_Write_ok fd b n w Hw) as [E _]; rewrite E; clear E
  end.
  rewrite Z.eqb_refl. cbn [negb].
  match goal with
  | |- context [net_Read fd 2 ?w1] =>
      rewrite (net_Read_ok fd 2 w1 [ver; method] rest Hin eq_refl)
  end.
  cbn [Z.eqb Pos.eqb negb nth]. rewrite Hm.
  destruct (method =? 0); destruct user, passwd; cbn; auto.
Qed.

Lemma socks_method_selected_witness :
  fst (SocksNegociate 8 5 None None Scenario.proxy_grants) = Ret VLC_SUCCESS.
Proof.
  apply (socks_method_selected 8 None None Scenario.proxy_grants 5 0
           [5; 0; 0; 1; 10; 0; 0; 1; 0; 80] eq_refl eq_refl).
  discriminate.
Defined.

(** X8. When fewer than two bytes arrive in answer to the offer,
    [SocksNegociate] fails; it does not look at the credentials. *)
Theorem socks_short_answer fd user passwd w :
  (List.length (inbox w) < 2)%nat ->
  fst (SocksNegociate fd 5 user passwd w) = Ret VLC_EGENERIC.
Proof.
  intros Hshort. unfold SocksNegociate. cbn [Z.eqb Pos.eqb negb].
  destruct (net_Write fd _ _ w) as [n w1] eqn:Ew.
  assert (Hin : inbox w1 = inbox w).
  { unfold net_Write in Ew. destruct (wr_script w) as [|[] s];
      injection Ew as _ <-; reflexivity. }
  destruct (negb (n =? _)); [reflexivity|].
  pose proof (net_Read_count fd 2 w1 ltac:(lia)) as H. cbv zeta in H.
  destruct (net_Read fd 2 w1) as [[k got] w2]. cbn [fst snd] in H.
  destruct H as [H _]. rewrite Hin in H.
  replace (Z.to_nat 2 <=? List.length (inbox w))%nat with false in H
    by (symmetry; apply Nat.leb_gt; change (Z.to_nat 2) with 2%nat; lia).
  rewrite H. reflexivity.
Qed.

Lemma socks_short_answer_witness :
  fst (SocksNegociate 8 5 None None (mkWorld [] [5] [])) = Ret VLC_EGENERIC.
Proof.
  apply (socks_short_answer 8 None None (mkWorld [] [5] [])). cbn. lia.
Defined.

(** X9. When the offer cannot be written in full, [SocksNegociate] fails
    at once: nothing is read from the socket. *)
Theorem socks_offer_not_written fd user passwd w script :
  wr_script w = false :: script ->
  let rw := SocksNegociate fd 5 user passwd w in
  fst rw = Ret VLC_EGENERIC /\ inbox (snd rw) = inbox w /\
  List.length (writes (trace (snd rw))) = S (List.length (writes (trace w))).
Proof.
  intros Hs. cbv zeta. unfold SocksNegociate, net_Write.
  cbn [Z.eqb Pos.eqb negb]. rewrite Hs.
  destruct user, passwd; cbn; auto.
Qed.

Lemma socks_offer_not_written_witness :
  fst (SocksNegociate 8 5 None None (mkWorld [] [5; 0] [false]))
  = Ret VLC_EGENERIC.
Proof.
  apply (socks_offer_not_written 8 None None (mkWorld [] [5; 0] [false]) []).
  reflexivity.
Defined.

(** ** What the handshake leaves alone *)

Lemma net_Write_accounts fd buffer i_len w :
  accounts (trace (snd (net_Write fd buffer i_len w))) = accounts (trace w).
Proof. unfold net_Write. destruct (wr_script w) as [|[] s]; reflexivity. Qed.

Lemma net_Read_accounts fd i_len w :
  accounts (trace (snd (net_Read fd i_len w))) = accounts (trace w).
Proof. reflexivity. Qed.

(** One step through a function that writes, reads and logs. *)
Ltac io_step :=
  match goal with
  | |- accounts (trace (snd (if ?b then _ else _))) = _ => destruct b
  | |- accounts (trace (snd (match ?o with Some _ => _ | None => _ end))) = _ =>
      destruct o
  | |- accounts _ = ?A =>
      match goal with
      | |- context [net_Write ?fd ?b ?n ?w] =>
          let H := fresh "Hio" in
          assert (H : accounts (trace (snd (net_Write fd b n w))) = A)
            by (rewrite net_Write_accounts; first [reflexivity | assumption]);
          destruct (net_Write fd b n w) as [? ?];
          cbn [snd] in H; cbv beta iota zeta
      | |- context [net_Read ?fd ?n ?w] =>
          let H := fresh "Hio" in
          assert (H : accounts (trace (snd (net_Read fd n w))) = A)
            by (rewrite net_Read_accounts; first [reflexivity | assumption]);
          destruct (net_Read fd n w) as [[? ?] ?];
          cbn [snd] in H; cbv beta iota zeta
      end
  end.

Ltac io_steps := repeat io_step; first [reflexivity | assumption].

Lemma SocksNegociate_quiet fd v user passwd w :
  accounts (trace (snd (SocksNegociate fd v user passwd w)))
  = accounts (trace w).
Proof.
  unfold SocksNegociate. destruct user, passwd; cbv beta iota zeta; io_steps.
Qed.

Lemma socks5_request_quiet fd host port w :
  accounts (trace (snd (socks5_request fd host port w))) = accounts (trace w).
Proof.
  unfold socks5_request. cbv beta iota zeta. io_steps.
Qed.

Lemma socks4_request_quiet e fd host port w :
  let rw := socks4_request e fd host port w in
  open_sockets (trace (snd rw)) = open_sockets (trace w) /\
  closed (trace (snd rw)) = closed (trace w) /\
  match fst rw with
  | Ret _ =>
      (released (trace (snd rw)) + resolved (trace w)
       = released (trace w) + resolved (trace (snd rw)))%nat
  | Fault _ => True
  end.
Proof.
  cbv zeta. unfold socks4_request.
  destruct (vlc_getaddrinfo e host 0 (mkHints AF_INET 0)) as [i_val p_res].
  destruct (i_val =? 0) eqn:Hval; cbn [negb].
  2:{ cbn. rewrite Hval. auto. }
  destruct p_res as [|[ai os] more]; [cbn; auto|].
  set (w1 := vlc_freeaddrinfo (ev (EvResolve host 0 i_val) w)).
  assert (H1 : open_sockets (trace w1) = open_sockets (trace w) /\
               closed (trace w1) = closed (trace w) /\
               (released (trace w1) + resolved (trace w)
                = released (trace w) + resolved (trace w1))%nat)
    by (subst w1; cbn; rewrite Hval; repeat split; lia).
  destruct H1 as [Ho [Hc Hb]].
  assert (H2 : forall rw : result status * world,
             accounts (trace (snd rw)) = accounts (trace w1) ->
             open_sockets (trace (snd rw)) = open_sockets (trace w) /\
             closed (trace (snd rw)) = closed (trace w) /\
             match fst rw with
             | Ret _ =>
                 (released (trace (snd rw)) + resolved (trace w)
                  = released (trace w) + resolved (trace (snd rw)))%nat
             | Fault _ => True
             end).
  { intros rw H. unfold accounts in H. injection H as Ho' Hc' Hr' Hd'.
    rewrite Ho', Hc', Hr', Hd'. destruct (fst rw); auto. }
  apply H2. clearbody w1. clear. cbv beta iota zeta. io_steps.
Qed.

(** X10. Whatever the version asked for and whatever the proxy answers,
    the handshake opens and closes no socket; and when it returns, it has
    released every resolver result it obtained. *)
Theorem handshake_keeps_sockets e fd v user passwd host port w :
  let rw := SocksHandshakeTCP e fd v user passwd host port w in
  open_sockets (trace (snd rw)) = open_sockets (trace w) /\
  closed (trace (snd rw)) = closed (trace w) /\
  match fst rw with
  | Ret _ =>
      (released (trace (snd rw)) + resolved (trace w)
       = released (trace w) + resolved (trace (snd rw)))%nat
  | Fault _ => True
  end.
Proof.
  cbv zeta. unfold SocksHandshakeTCP.
  set (vw := if negb (v =? 4) && negb (v =? 5)
             then (5, msg Warn "invalid socks protocol version %d" w)
             else (v, w)).
  assert (Hvw : open_sockets (trace (snd vw)) = open_sockets (trace w) /\
                closed (trace (snd vw)) = closed (trace w) /\
                resolved (trace (snd vw)) = resolved (trace w) /\
                released (trace (snd vw)) = released (trace w))
    by (subst vw; destruct (negb (v =? 4) && negb (v =? 5)); cbn; auto).
  destruct vw as [v' w0]. cbn [snd] in Hvw.
  destruct Hvw as [Ho [Hc [Hr Hd]]]. rewrite <- Ho, <- Hc, <- Hr, <- Hd.
  clear Ho Hc Hr Hd w.
  set (nw := if v' =? 5 then SocksNegociate fd v' user passwd w0
             else (Ret VLC_SUCCESS, w0)).
  assert (Hnw : accounts (trace (snd nw)) = accounts (trace w0))
    by (subst nw; destruct (v' =? 5);
        [apply SocksNegociate_quiet | reflexivity]).
  destruct nw as [[[]|f] w1]; cbn [snd] in Hnw; unfold accounts in Hnw;
    injection Hnw as Ho Hc Hr Hd; rewrite <- Ho, <- Hc, <- Hr, <- Hd;
    cbn [fst snd]; auto.
  destruct (v' =? 4).
  - apply socks4_request_quiet.
  - destruct (v' =? 5); [|cbn; auto].
    pose proof (socks5_request_quiet fd host port w1) as H.
    unfold accounts in H. injection H as Ho' Hc' Hr' Hd'. rewrite Ho', Hc', Hr', Hd'.
    destruct (fst (socks5_request fd host port w1)); auto.
Qed.

(** ** Before the first attempt *)

(** X11. With "socks" set, a socket type other than 0 and SOCK_STREAM, or
    a protocol other than 0 and IPPROTO_TCP, makes connect return -1 with
    an error logged, before the resolver is called and before any socket
    is created. *)
Theorem connect_socks_unsupported e psz_host i_port type proto w s :
  var_CreateGetNonEmptyString e "socks" = Some s ->
  through_socks type proto = false ->
  let rw := net_Connect e psz_host i_port type proto w in
  fst rw = Ret (-1) /\
  resolver_called (trace (snd rw)) = resolver_called (trace w) /\
  tried (trace (snd rw)) = tried (trace w) /\
  (logged Err "Socket type not supported through SOCKS" (trace (snd rw)) \/
   logged Err "Transport not supported through SOCKS" (trace (snd rw))).
Proof.
  intros Hs Hno. cbv zeta. unfold net_Connect, socks_target. rewrite Hs.
  destruct (split_colon s) as [h p]. unfold through_socks in Hno.
  destruct ((type =? 0) || (type =? SOCK_STREAM)); cbn [negb andb] in *.
  - rewrite Hno. cbn. unfold logged. cbn. auto 6.
  - cbn. unfold logged. cbn. auto 6.
Qed.

Lemma connect_socks_unsupported_witness :
  fst (net_Connect Scenario.proxied "host" 80 2 17 Scenario.quiet_world)
  = Ret (-1).
Proof.
  apply (connect_socks_unsupported Scenario.proxied "host" 80 2 17
           Scenario.quiet_world "proxy:1080"); reflexivity.
Defined.

(** X12. Without "socks", when the resolver fails, connect logs the error
    and returns -1: no socket was created and there is nothing to
    release. *)
Theorem connect_unresolved e psz_host i_port type proto w i_val res :
  var_CreateGetNonEmptyString e "socks" = None ->
  vlc_getaddrinfo e psz_host (if i_port =? 0 then 80 else i_port)
                  (mkHints 0 SOCK_STREAM) = (i_val, res) ->
  i_val <> 0 ->
  net_Connect e psz_host i_port type proto w
  = (Ret (-1),
     msg Err "cannot resolve %s port %d : %s"
       (ev (EvResolve psz_host (if i_port =? 0 then 80 else i_port) i_val)
          (msg Dbg "net: connecting to %s port %d" w))).
Proof.
  intros Hs Hres Hval. apply Z.eqb_neq in Hval.
  unfold net_Connect. rewrite Hs, Hres, Hval. reflexivity.
Qed.

Lemma connect_unresolved_witness :
  fst (net_Connect Example.unresolved "host" 0 0 0 Scenario.quiet_world)
  = Ret (-1).
Proof.
  rewrite (connect_unresolved Example.unresolved "host" 0 0 0
             Scenario.quiet_world (-2) []);
    [reflexivity | reflexivity | reflexivity | discriminate].
Defined.

(** [split_colon] cuts at the first colon. *)
Lemma split_colon_first h : forall p,
  colon_free h = true ->
  split_colon (String.append h (String ":"%char p)) = (h, Some p).
Proof.
  induction h as [|c h IH]; intros p H; cbn [String.append split_colon].
  - reflexivity.
  - cbn [colon_free] in H. apply andb_true_iff in H. destruct H as [Hc Hh].
    apply negb_true_iff in Hc. rewrite Hc, (IH p Hh). reflexivity.
Qed.

Lemma split_colon_none h :
  colon_free h = true -> split_colon h = (h, None).
Proof.
  induction h as [|c h IH]; intros H; cbn [split_colon].
  - reflexivity.
  - cbn [colon_free] in H. apply andb_true_iff in H. destruct H as [Hc Hh].
    apply negb_true_iff in Hc. rewrite Hc, (IH Hh). reflexivity.
Qed.

(** ** The names asked of the resolver *)

Lemma poll_loop_calls os fd rem quot : forall k w,
  resolve_calls (trace (snd (poll_loop os fd rem quot k w)))
  = resolve_calls (trace w).
Proof.
  induction quot as [|q IH]; intros k w; cbn [poll_loop];
    destruct (os_die os k); try reflexivity;
    destruct (os_poll os k) as [i_ret net_errno];
    destruct (i_ret =? 1); try reflexivity;
    destruct ((i_ret =? -1) && negb (net_errno =? EINTR)); try reflexivity.
  exact (IH (S k) (ev (EvPoll fd (if 0 <? Z.of_nat (S q) then 100 else rem)) w)).
Qed.

Lemma attempt_calls e os fd w :
  resolve_calls (trace (snd (attempt e os fd w))) = resolve_calls (trace w).
Proof.
  unfold attempt. destruct (os_connect os) as [ret net_errno].
  destruct (negb (ret =? 0)); [|reflexivity].
  destruct (negb (net_errno =? EINPROGRESS)); [reflexivity|].
  unfold wait_connected.
  set (w1 := msg Dbg "connection: %m" (ev (EvConnect fd) w)).
  set (tw := if var_GetInteger e "ipv4-timeout" <? 0
             then (0, msg Err "invalid negative value for ipv4-timeout" w1)
             else (var_GetInteger e "ipv4-timeout", w1)).
  assert (Htw : resolve_calls (trace (snd tw)) = resolve_calls (trace w))
    by (subst tw; destruct (_ <? 0); reflexivity).
  destruct tw as [timeout w2]. cbn [snd] in Htw. rewrite <- Htw.
  pose proof (poll_loop_calls os fd (Z.rem timeout 100)
                (Z.to_nat (Z.quot timeout 100)) 0%nat w2) as H.
  destruct (poll_loop _ _ _ _ _ _) as [[] w3]; cbn [snd] in *; try exact H.
  destruct (os_sockopt os) as [r v].
  destruct ((r =? -1) || negb (v =? 0)); exact H.
Qed.

Lemma connect_loop_calls e type proto : forall res w,
  resolve_calls (trace (snd (connect_loop e type proto res w)))
  = resolve_calls (trace w).
Proof.
  induction res as [|[ai os] ai_next IH]; intros w; cbn [connect_loop].
  - reflexivity.
  - destruct (os_fd os =? -1).
    + match goal with
      | |- context [connect_loop e type proto ai_next ?w0] => exact (IH w0)
      end.
    + match goal with
      | |- context [attempt e os (os_fd os) ?w0] =>
          pose proof (attempt_calls e os (os_fd os) w0) as A;
          destruct (attempt e os (os_fd os) w0) as [end_ w1]
      end.
      cbn [snd ev trace resolve_calls] in A. destruct end_; cbn [snd].
      * exact A.
      * rewrite (IH (net_Close (os_fd os) w1)). exact A.
      * exact A.
Qed.

Lemma net_Write_calls fd buffer i_len w :
  resolve_calls (trace (snd (net_Write fd buffer i_len w)))
  = resolve_calls (trace w).
Proof. unfold net_Write. destruct (wr_script w) as [|[] s]; reflexivity. Qed.

Lemma net_Read_calls fd i_len w :
  resolve_calls (trace (snd (net_Read fd i_len w))) = resolve_calls (trace w).
Proof. reflexivity. Qed.

Ltac calls_step :=
  match goal with
  | |- resolve_calls (trace (snd (if ?b then _ else _))) = _ => destruct b
  | |- resolve_calls
         (trace (snd (match ?o with Some _ => _ | None => _ end))) = _ =>
      destruct o
  | |- resolve_calls _ = ?A =>
      match goal with
      | |- context [net_Write ?fd ?b ?n ?w] =>
          let H := fresh "Hio" in
          assert (H : resolve_calls (trace (snd (net_Write fd b n w))) = A)
            by (rewrite net_Write_calls; first [reflexivity | assumption]);
          destruct (net_Write fd b n w) as [? ?];
          cbn [snd] in H; cbv beta iota zeta
      | |- context [net_Read ?fd ?n ?w] =>
          let H := fresh "Hio" in
          assert (H : resolve_calls (trace (snd (net_Read fd n w))) = A)
            by (rewrite net_Read_calls; first [reflexivity | assumption]);
          destruct (net_Read fd n w) as [[? ?] ?];
          cbn [snd] in H; cbv beta iota zeta
      end
  end.

Lemma SocksNegociate_calls fd v user passwd w :
  resolve_calls (trace (snd (SocksNegociate fd v user passwd w)))
  = resolve_calls (trace w).
Proof.
  unfold SocksNegociate. destruct user, passwd; cbv beta iota zeta;
    repeat calls_step; first [reflexivity | assumption].
Qed.

Lemma socks5_request_calls fd host port w :
  resolve_calls (trace (snd (socks5_request fd host port w)))
  = resolve_calls (trace w).
Proof.
  unfold socks5_request. cbv beta iota zeta.
  repeat calls_step; first [reflexivity | assumption].
Qed.

Lemma socks_tunnel_calls e i_handle host port w :
  resolve_calls (trace (snd (socks_tunnel e i_handle host port w)))
  = resolve_calls (trace w).
Proof.
  unfold socks_tunnel, SocksHandshakeTCP. cbn [Z.eqb Pos.eqb negb andb].
  pose proof (SocksNegociate_calls i_handle 5
                (var_CreateGetNonEmptyString e "socks-user")
                (var_CreateGetNonEmptyString e "socks-pwd") w) as Hn.
  destruct (SocksNegociate i_handle 5 _ _ w) as [[[]|f] w1]; cbn [snd] in *;
    try exact Hn.
  pose proof (socks5_request_calls i_handle host port w1) as Hr.
  destruct (socks5_request i_handle host port w1) as [[[]|f] w2];
    cbn [snd] in *; rewrite <- Hn; exact Hr.
Qed.

(** X13. With "socks" set to host:port, the one name connect asks of the
    resolver is the proxy, not the host of the call: the part before the
    first colon, at the port that [atoi] reads after it, or at port 1080
    when there is no colon.  This holds for every outcome of the call,
    whether the proxy resolves or not and whatever follows. *)
Theorem connect_resolves_proxy e psz_host i_port type proto w h p :
  colon_free h = true ->
  var_CreateGetNonEmptyString e "socks"
    = Some (match p with
            | Some p' => String.append h (String ":"%char p')
            | None => h
            end) ->
  through_socks type proto = true ->
  resolve_calls (trace (snd (net_Connect e psz_host i_port type proto w)))
  = (h, match p with Some p' => atoi e p' | None => 1080 end)
    :: resolve_calls (trace w).
Proof.
  intros Hh Hs Hok.
  unfold net_Connect, socks_target. rewrite Hs.
  assert (Hsplit : split_colon
            (match p with
             | Some p' => String.append h (String ":"%char p')
             | None => h
             end) = (h, p))
    by (destruct p; [apply split_colon_first | apply split_colon_none];
        exact Hh).
  rewrite Hsplit. unfold through_socks in Hok.
  apply andb_true_iff in Hok. destruct Hok as [Ht Hp]. rewrite Ht, Hp.
  cbn [negb].
  destruct (vlc_getaddrinfo e h _ (mkHints 0 SOCK_STREAM)) as [i_val res].
  destruct (negb (i_val =? 0)); [reflexivity|].
  match goal with
  | |- context [connect_loop e ?t ?p0 res ?w0] =>
      pose proof (connect_loop_calls e t p0 res w0) as L;
      destruct (connect_loop e t p0 res w0) as [[i_handle|] w1]
  end; cbn [snd ev msg trace resolve_calls] in L.
  - destruct (i_handle =? -1); [exact L|].
    rewrite socks_tunnel_calls. exact L.
  - exact L.
Qed.

Lemma connect_resolves_proxy_witness :
  resolve_calls
    (trace (snd (net_Connect Scenario.proxied "host" 0 0 0
                   Scenario.proxy_grants)))
  = [("proxy"%string, 1080)].
Proof.
  apply (connect_resolves_proxy Scenario.proxied "host" 0 0 0
           Scenario.proxy_grants "proxy" (Some "1080"%string));
    reflexivity.
Defined.

(** ** All the candidates *)

Lemma candidate_fails_cons e type proto ai os ai_next w :
  candidate_fails e (ai, os) = true ->
  exists w1,
    connect_loop e type proto ((ai, os) :: ai_next) w
    = connect_loop e type proto ai_next w1
    /\ tried (trace w1) = S (tried (trace w))
    /\ closed (trace w1)
       = (if os_fd os =? -1 then [] else [os_fd os]) ++ closed (trace w).
Proof.
  unfold candidate_fails. cbn [snd connect_loop]. intros H.
  destruct (os_fd os =? -1) eqn:Hfd.
  - eexists. split; [reflexivity|]. cbn. auto.
  - cbn [orb] in H.
    match goal with
    | |- context [attempt e os (os_fd os) ?w0] =>
        pose proof (attempt_outcome_eq e os w0) as E;
        pose proof (attempt_closed e os (os_fd os) w0) as Q;
        destruct (attempt e os (os_fd os) w0) as [end_ w1]
    end.
    cbn [fst snd] in E, Q. rewrite <- E in H.
    destruct end_; try discriminate H.
    eexists. split; [reflexivity|]. destruct Q as [Qt Qc].
    cbn [net_Close ev trace tried closed].
    rewrite Qt, (Qc ltac:(discriminate)). cbn. auto.
Qed.

Lemma connect_loop_failing e type proto : forall bad ai_next w,
  forallb (candidate_fails e) bad = true ->
  exists w1,
    connect_loop e type proto (bad ++ ai_next) w
    = connect_loop e type proto ai_next w1
    /\ tried (trace w1) = (List.length bad + tried (trace w))%nat
    /\ closed (trace w1)
       = rev (filter (fun fd => negb (fd =? -1))
                     (map (fun c => os_fd (snd c)) bad))
         ++ closed (trace w).
Proof.
  induction bad as [|[ai os] bad IH]; intros ai_next w H.
  - exists w. cbn. auto.
  - cbn [forallb] in H. apply andb_true_iff in H. destruct H as [Hc Hb].
    destruct (candidate_fails_cons e type proto ai os (bad ++ ai_next) w Hc)
      as [w1 [E1 [T1 C1]]].
    destruct (IH ai_next w1 Hb) as [w2 [E2 [T2 C2]]].
    exists w2. cbn [app]. rewrite E1, E2. split; [reflexivity|].
    rewrite T2, T1, C2, C1. cbn [List.length map snd filter].
    split; [lia|].
    destruct (os_fd os =? -1); cbn [negb rev app].
    + reflexivity.
    + rewrite <- app_assoc. reflexivity.
Qed.

(** X14. When every resolved address fails (no socket, or an attempt that
    gives up), connect without "socks" has tried each of them once, in
    order, closed every socket it created, released the resolver result,
    and returns -1. *)
Theorem connect_exhausted e psz_host i_port type proto w res :
  var_CreateGetNonEmptyString e "socks" = None ->
  vlc_getaddrinfo e psz_host (if i_port =? 0 then 80 else i_port)
                  (mkHints 0 SOCK_STREAM) = (0, res) ->
  forallb (candidate_fails e) res = true ->
  let rw := net_Connect e psz_host i_port type proto w in
  fst rw = Ret (-1) /\
  tried (trace (snd rw)) = (List.length res + tried (trace w))%nat /\
  closed (trace (snd rw))
  = rev (filter (fun fd => negb (fd =? -1)) (map (fun c => os_fd (snd c)) res))
    ++ closed (trace w) /\
  released (trace (snd rw)) = S (released (trace w)).
Proof.
  intros Hs Hres Hall. cbv zeta. unfold net_Connect.
  rewrite Hs, Hres. cbn [negb Z.eqb].
  match goal with
  | |- context [connect_loop e type proto res ?w0] =>
      destruct (connect_loop_failing e type proto res [] w0 Hall)
        as [w1 [E [T C]]];
      pose proof (connect_loop_ledger e type proto res w0) as L
  end.
  rewrite app_nil_r in E. rewrite E in *. cbn [connect_loop] in *.
  cbv zeta in L. cbn [fst snd Z.eqb Pos.eqb] in *.
  destruct L as [_ [L _]].
  cbn [vlc_freeaddrinfo msg ev trace tried closed released] in *.
  rewrite T, C, L. auto.
Qed.

Lemma connect_exhausted_witness :
  fst (net_Connect
         (Scenario.direct 250 [(Scenario.ai, Scenario.os_no_socket);
                               (Scenario.ai, Scenario.os_refused 7)])
         "host" 80 0 0 Scenario.quiet_world) = Ret (-1).
Proof.
  apply (connect_exhausted
           (Scenario.direct 250 [(Scenario.ai, Scenario.os_no_socket);
                                 (Scenario.ai, Scenario.os_refused 7)])
           "host" 80 0 0 Scenario.quiet_world
           [(Scenario.ai, Scenario.os_no_socket);
            (Scenario.ai, Scenario.os_refused 7)]); reflexivity.
Defined.

(** X15. connect stops at the first resolved address whose attempt
    succeeds: it returns that socket, has tried the failing addresses
    before it and none after it. *)
Theorem connect_first_success e psz_host i_port type proto w bad ai os rest :
  var_CreateGetNonEmptyString e "socks" = None ->
  vlc_getaddrinfo e psz_host (if i_port =? 0 then 80 else i_port)
                  (mkHints 0 SOCK_STREAM) = (0, bad ++ (ai, os) :: rest) ->
  forallb (candidate_fails e) bad = true ->
  os_fd os <> -1 ->
  attempt_outcome e os = AttemptOk ->
  let rw := net_Connect e psz_host i_port type proto w in
  fst rw = Ret (os_fd os) /\
  tried (trace (snd rw)) = (List.length bad + 1 + tried (trace w))%nat.
Proof.
  intros Hs Hres Hbad Hfd Hok. cbv zeta. unfold net_Connect.
  rewrite Hs, Hres. cbn [negb Z.eqb].
  match goal with
  | |- context [connect_loop e type proto _ ?w0] =>
      destruct (connect_loop_failing e type proto bad ((ai, os) :: rest) w0 Hbad)
        as [w1 [E [T _]]]
  end.
  rewrite E. cbn [connect_loop]. apply Z.eqb_neq in Hfd. rewrite Hfd.
  match goal with
  | |- context [attempt e os (os_fd os) ?w0] =>
      pose proof (attempt_outcome_eq e os w0) as EO;
      pose proof (attempt_closed e os (os_fd os) w0) as Q;
      destruct (attempt e os (os_fd os) w0) as [end_ w2]
  end.
  cbn [fst snd] in EO, Q. rewrite Hok in EO. subst end_.
  rewrite Hfd. cbn [fst snd vlc_freeaddrinfo msg ev trace tried].
  destruct Q as [Qt _]. rewrite Qt. cbn [ev trace tried]. rewrite T.
  cbn [msg ev trace tried]. split; [reflexivity|lia].
Qed.

Lemma connect_first_success_witness :
  fst (net_Connect (Scenario.direct 250 Scenario.abc) "host" 80 0 0
         Scenario.quiet_world) = Ret 8.
Proof.
  apply (connect_first_success (Scenario.direct 250 Scenario.abc)
           "host" 80 0 0 Scenario.quiet_world
           [(Scenario.ai, Scenario.os_no_socket);
            (Scenario.ai, Scenario.os_refused 7)]
           Scenario.ai (Scenario.os_connected 8)
           [(Scenario.ai, Scenario.os_connected 9)]);
    try reflexivity; discriminate.
Defined.

(** X16. How the loop over the resolved addresses ends is decided by the
    first address that does not simply fail: -1 when there is none, its
    socket when its attempt succeeds, and a return from inside the loop when
    its attempt was cut short by the liveness flag. *)
Theorem connect_loop_outcome e type proto : forall res w,
  match fst (connect_loop e type proto res w) with
  | Some i_handle =>
      if i_handle =? -1 then forallb (candidate_fails e) res = true
      else exists bad ai os rest,
          res = bad ++ (ai, os) :: rest /\
          forallb (candidate_fails e) bad = true /\
          os_fd os = i_handle /\ attempt_outcome e os = AttemptOk
  | None =>
      exists bad ai os rest,
          res = bad ++ (ai, os) :: rest /\
          forallb (candidate_fails e) bad = true /\
          os_fd os <> -1 /\ attempt_outcome e os = AttemptAbort
  end.
Proof.
  induction res as [|[ai os] ai_next IH]; intros w; cbn [connect_loop].
  - reflexivity.
  - destruct (os_fd os =? -1) eqn:Hfd.
    + match goal with
      | |- context [connect_loop e type proto ai_next ?w0] =>
          specialize (IH w0);
          destruct (fst (connect_loop e type proto ai_next w0)) as [h|]
      end.
      * destruct (h =? -1).
        -- cbn [forallb]. unfold candidate_fails at 1. cbn [snd].
           rewrite Hfd. exact IH.
        -- destruct IH as [bad [ai' [os' [rest [E [B [F O]]]]]]].
           exists ((ai, os) :: bad), ai', os', rest. rewrite E.
           cbn [forallb app]. unfold candidate_fails at 1. cbn [snd].
           rewrite Hfd. auto.
      * destruct IH as [bad [ai' [os' [rest [E [B [F O]]]]]]].
        exists ((ai, os) :: bad), ai', os', rest. rewrite E.
        cbn [forallb app]. unfold candidate_fails at 1. cbn [snd].
        rewrite Hfd. auto.
    + match goal with
      | |- context [attempt e os (os_fd os) ?w0] =>
          pose proof (attempt_outcome_eq e os w0) as EO;
          destruct (attempt e os (os_fd os) w0) as [end_ w1]
      end.
      cbn [fst] in EO. destruct end_.
      * cbn [fst]. rewrite Hfd. exists [], ai, os, ai_next. cbn. auto.
      * match goal with
        | |- context [connect_loop e type proto ai_next ?w0] =>
            specialize (IH w0);
            destruct (fst (connect_loop e type proto ai_next w0)) as [h|]
        end.
        -- destruct (h =? -1).
           ++ cbn [forallb]. unfold candidate_fails at 1. cbn [snd].
              rewrite Hfd, <- EO. exact IH.
           ++ destruct IH as [bad [ai' [os' [rest [E [B [F O]]]]]]].
              exists ((ai, os) :: bad), ai', os', rest. rewrite E.
              cbn [forallb app]. unfold candidate_fails at 1. cbn [snd].
              rewrite Hfd, <- EO. auto.
        -- destruct IH as [bad [ai' [os' [rest [E [B [F O]]]]]]].
           exists ((ai, os) :: bad), ai', os', rest. rewrite E.
           cbn [forallb app]. unfold candidate_fails at 1. cbn [snd].
           rewrite Hfd, <- EO. auto.
      * cbn [fst]. exists [], ai, os, ai_next. apply Z.eqb_neq in Hfd.
        cbn. auto.
Qed.

(** ** The time spent waiting *)

Lemma poll_loop_waited os fd rem quot :
  0 <= rem ->
  forall k w,
  waited (trace w) <= waited (trace (snd (poll_loop os fd rem quot k w)))
  <= waited (trace w) + 100 * Z.of_nat quot + rem.
Proof.
  intros Hrem. induction quot as [|q IH]; intros k w; cbn [poll_loop].
  - destruct (os_die os k); [cbn; unfold waited; cbn; lia|].
    destruct (os_poll os k) as [i_ret net_errno].
    destruct (i_ret =? 1); [unfold waited; cbn; lia|].
    destruct ((i_ret =? -1) && negb (net_errno =? EINTR));
      unfold waited; cbn; lia.
  - destruct (os_die os k); [cbn; unfold waited; cbn; lia|].
    destruct (os_poll os k) as [i_ret net_errno].
    replace (0 <? Z.of_nat (S q)) with true by (symmetry; apply Z.ltb_lt; lia).
    destruct (i_ret =? 1); [unfold waited; cbn [snd ev trace polls fold_right]; lia|].
    destruct ((i_ret =? -1) && negb (net_errno =? EINTR));
      [unfold waited; cbn [snd msg ev trace polls fold_right]; lia|].
    specialize (IH (S k) (ev (EvPoll fd 100) w)).
    unfold waited in *. cbn [ev trace polls fold_right] in IH. lia.
Qed.

Lemma attempt_waited e os fd w :
  waited (trace w) <= waited (trace (snd (attempt e os fd w)))
  <= waited (trace w) + Z.max 0 (var_GetInteger e "ipv4-timeout").
Proof.
  unfold attempt. destruct (os_connect os) as [ret net_errno].
  destruct (negb (ret =? 0)); [|unfold waited; cbn; lia].
  destruct (negb (net_errno =? EINPROGRESS)); [unfold waited; cbn; lia|].
  unfold wait_connected.
  set (T := var_GetInteger e "ipv4-timeout").
  set (w1 := msg Dbg "connection: %m" (ev (EvConnect fd) w)).
  set (tw := if T <? 0
             then (0, msg Err "invalid negative value for ipv4-timeout" w1)
             else (T, w1)).
  assert (Htw : waited (trace (snd tw)) = waited (trace w)
                /\ fst tw = Z.max 0 T).
  { subst tw. destruct (Z.ltb_spec T 0); cbn [fst snd]; split;
      try reflexivity; lia. }
  destruct tw as [timeout w2]. cbn [fst snd] in Htw. destruct Htw as [Hw Ht].
  assert (H0 : 0 <= timeout) by lia.
  pose proof (poll_loop_waited os fd (Z.rem timeout 100)
                (Z.to_nat (Z.quot timeout 100))
                ltac:(apply Z.rem_nonneg; lia) 0%nat w2) as H.
  rewrite Z2Nat.id in H by (apply Z.quot_pos; lia).
  pose proof (Z.quot_rem' timeout 100) as Hqr.
  destruct (poll_loop _ _ _ _ _ _) as [[] w3]; cbn [snd] in *;
    try (destruct (os_sockopt os) as [r v];
         destruct ((r =? -1) || negb (v =? 0)));
    unfold waited in *; cbn [snd msg ev trace polls fold_right] in *; lia.
Qed.

(** X17. The waits of one connect add up to the timeout at most for each
    resolved address: the loop over [res] never asks [poll] for more than
    the number of addresses times "ipv4-timeout" (nothing when it is
    negative), whatever the waits report. *)
Theorem connect_loop_waited e type proto : forall res w,
  waited (trace w) <= waited (trace (snd (connect_loop e type proto res w)))
  <= waited (trace w)
     + Z.of_nat (List.length res) * Z.max 0 (var_GetInteger e "ipv4-timeout").
Proof.
  induction res as [|[ai os] ai_next IH]; intros w; cbn [connect_loop].
  - cbn. lia.
  - cbn [List.length]. rewrite Nat2Z.inj_succ.
    destruct (os_fd os =? -1).
    + match goal with
      | |- context [connect_loop e type proto ai_next ?w0] =>
          specialize (IH w0)
      end.
      unfold waited in *. cbn [msg ev trace polls fold_right] in IH. lia.
    + match goal with
      | |- context [attempt e os (os_fd os) ?w0] =>
          pose proof (attempt_waited e os (os_fd os) w0) as A;
          destruct (attempt e os (os_fd os) w0) as [end_ w1]
      end.
      cbn [snd] in A. unfold waited in A. cbn [ev trace polls fold_right] in A.
      destruct end_; cbn [snd].
      * unfold waited in *. cbn [msg ev trace polls fold_right]. lia.
      * specialize (IH (net_Close (os_fd os) w1)).
        unfold waited in *. cbn [net_Close ev trace polls fold_right] in IH.
        lia.
      * unfold waited in *. lia.
Qed.

(** X18. A connection in progress that [poll] reports writable at once is
    judged by the pending error of the socket and by nothing else: the
    attempt succeeds when [getsockopt] works and the error is zero, and
    gives up otherwise, whatever the timeout. *)
Theorem connect_completion e os :
  fst (os_connect os) <> 0 ->
  snd (os_connect os) = EINPROGRESS ->
  os_die os 0%nat = false ->
  fst (os_poll os 0%nat) = 1 ->
  attempt_outcome e os
  = if (fst (os_sockopt os) =? -1) || negb (snd (os_sockopt os) =? 0)
    then AttemptNext else AttemptOk.
Proof.
  intros Hret Herr Hdie Hpoll. apply Z.eqb_neq in Hret.
  unfold attempt_outcome, attempt, wait_connected.
  destruct (os_connect os) as [ret net_errno]. cbn [fst snd] in Hret, Herr.
  rewrite Hret, Herr. cbn [negb]. rewrite Z.eqb_refl. cbn [negb].
  assert (Hloop : forall rem quot w,
             poll_loop os (os_fd os) rem quot 0 w
             = (AttemptOk,
                ev (EvPoll (os_fd os)
                      (if 0 <? Z.of_nat quot then 100 else rem)) w)).
  { intros rem quot w. destruct quot; cbn [poll_loop]; rewrite Hdie;
      destruct (os_poll os 0%nat) as [i_ret perr]; cbn [fst] in Hpoll;
      subst i_ret; reflexivity. }
  destruct (var_GetInteger e "ipv4-timeout" <? 0); rewrite Hloop;
    destruct (os_sockopt os) as [r v]; cbn [fst snd];
    destruct ((r =? -1) || negb (v =? 0)); reflexivity.
Qed.

Lemma connect_completion_witness :
  attempt_outcome (Scenario.direct 250 []) (Example.os_completes 8 111)
  = AttemptNext.
Proof.
  rewrite (connect_completion (Scenario.direct 250 [])
             (Example.os_completes 8 111));
    [reflexivity | discriminate | reflexivity | reflexivity | reflexivity].
Defined.

(** X19. A wait that fails at once with an error other than [EINTR] makes
    connect give the address up, whatever the timeout and whatever the
    pending error of the socket would have been. *)
Theorem connect_poll_error e os :
  fst (os_connect os) <> 0 ->
  snd (os_connect os) = EINPROGRESS ->
  os_die os 0%nat = false ->
  fst (os_poll os 0%nat) = -1 ->
  snd (os_poll os 0%nat) <> EINTR ->
  attempt_outcome e os = AttemptNext /\
  logged Err "connection polling error: %m"
    (trace (snd (attempt e os (os_fd os) (mkWorld [] [] [])))).
Proof.
  intros Hret Herr Hdie Hpoll Hperr. apply Z.eqb_neq in Hret, Hperr.
  unfold attempt_outcome, attempt, wait_connected.
  destruct (os_connect os) as [ret net_errno]. cbn [fst snd] in Hret, Herr.
  rewrite Hret, Herr. cbn [negb]. rewrite Z.eqb_refl. cbn [negb].
  assert (Hloop : forall rem quot w,
             poll_loop os (os_fd os) rem quot 0 w
             = (AttemptNext,
                msg Err "connection polling error: %m"
                  (ev (EvPoll (os_fd os)
                         (if 0 <? Z.of_nat quot then 100 else rem)) w))).
  { intros rem quot w. destruct quot; cbn [poll_loop]; rewrite Hdie;
      destruct (os_poll os 0%nat) as [i_ret perr]; cbn [fst snd] in Hpoll, Hperr;
      subst i_ret; rewrite Hperr; reflexivity. }
  destruct (var_GetInteger e "ipv4-timeout" <? 0); rewrite Hloop;
    cbn [fst snd]; (split; [reflexivity | left; reflexivity]).
Qed.

Lemma connect_poll_error_witness :
  attempt_outcome (Scenario.direct 250 [])
    (mkScript 8 (-1, EINPROGRESS) Scenario.never (fun _ => (-1, 9)) (0, 0))
  = AttemptNext.
Proof.
  apply (connect_poll_error (Scenario.direct 250 [])
           (mkScript 8 (-1, EINPROGRESS) Scenario.never (fun _ => (-1, 9))
              (0, 0)));
    try reflexivity; discriminate.
Defined.

(** ** A direct connection does no input or output *)

Lemma poll_loop_io os fd rem quot : forall k w,
  let w' := snd (poll_loop os fd rem quot k w) in
  inbox w' = inbox w /\ wr_script w' = wr_script w /\
  writes (trace w') = writes (trace w).
Proof.
  induction quot as [|q IH]; intros k w; cbn [poll_loop];
    destruct (os_die os k); try (cbn; auto; fail);
    destruct (os_poll os k) as [i_ret net_errno];
    destruct (i_ret =? 1); try (cbn; auto; fail);
    destruct ((i_ret =? -1) && negb (net_errno =? EINTR));
    try (cbn; auto; fail).
  exact (IH (S k) (ev (EvPoll fd (if 0 <? Z.of_nat (S q) then 100 else rem)) w)).
Qed.

Lemma attempt_io e os fd w :
  let w' := snd (attempt e os fd w) in
  inbox w' = inbox w /\ wr_script w' = wr_script w /\
  writes (trace w') = writes (trace w).
Proof.
  unfold attempt. destruct (os_connect os) as [ret net_errno].
  destruct (negb (ret =? 0)); [|cbn; auto].
  destruct (negb (net_errno =? EINPROGRESS)); [cbn; auto|].
  unfold wait_connected.
  set (w1 := msg Dbg "connection: %m" (ev (EvConnect fd) w)).
  set (tw := if var_GetInteger e "ipv4-timeout" <? 0
             then (0, msg Err "invalid negative value for ipv4-timeout" w1)
             else (var_GetInteger e "ipv4-timeout", w1)).
  assert (Htw : inbox (snd tw) = inbox w /\ wr_script (snd tw) = wr_script w
                /\ writes (trace (snd tw)) = writes (trace w))
    by (subst tw; destruct (_ <? 0); cbn; auto).
  destruct tw as [timeout w2]. cbn [snd] in Htw.
  destruct Htw as [Hi [Hs Hw]]. rewrite <- Hi, <- Hs, <- Hw.
  pose proof (poll_loop_io os fd (Z.rem timeout 100)
                (Z.to_nat (Z.quot timeout 100)) 0%nat w2) as H.
  cbv zeta in H.
  destruct (poll_loop _ _ _ _ _ _) as [[] w3]; cbn [snd] in *; try exact H.
  destruct (os_sockopt os) as [r v].
  destruct ((r =? -1) || negb (v =? 0)); exact H.
Qed.

Lemma connect_loop_io e type proto : forall res w,
  let w' := snd (connect_loop e type proto res w) in
  inbox w' = inbox w /\ wr_script w' = wr_script w /\
  writes (trace w') = writes (trace w).
Proof.
  induction res as [|[ai os] ai_next IH]; intros w; cbn [connect_loop].
  - cbn. auto.
  - destruct (os_fd os =? -1).
    + match goal with
      | |- context [connect_loop e type proto ai_next ?w0] =>
          exact (IH w0)
      end.
    + match goal with
      | |- context [attempt e os (os_fd os) ?w0] =>
          pose proof (attempt_io e os (os_fd os) w0) as A;
          destruct (attempt e os (os_fd os) w0) as [end_ w1]
      end.
      cbv zeta in A. cbn [snd ev trace inbox wr_script writes] in A.
      destruct A as [Ai [As Aw]]. destruct end_; cbn [snd].
      * cbn. auto.
      * specialize (IH (net_Close (os_fd os) w1)). cbv zeta in IH.
        cbn [net_Close ev trace inbox wr_script writes] in IH.
        rewrite Ai, As, Aw in IH. exact IH.
      * auto.
Qed.

(** X20. Without "socks", connect neither writes to nor reads from any
    socket: what the peer sent stays unread, whatever the outcome. *)
Theorem connect_direct_no_io e psz_host i_port type proto w :
  var_CreateGetNonEmptyString e "socks" = None ->
  let w' := snd (net_Connect e psz_host i_port type proto w) in
  inbox w' = inbox w /\ writes (trace w') = writes (trace w).
Proof.
  intros Hs. cbv zeta. unfold net_Connect. rewrite Hs.
  destruct (vlc_getaddrinfo e psz_host _ _) as [i_val res].
  destruct (negb (i_val =? 0)); [cbn; auto|].
  match goal with
  | |- context [connect_loop e type proto res ?w0] =>
      pose proof (connect_loop_io e type proto res w0) as L;
      destruct (connect_loop e type proto res w0) as [[h|] w1]
  end; cbv zeta in L; cbn [snd msg ev trace inbox wr_script writes] in L;
    destruct L as [Li [_ Lw]].
  - destruct (h =? -1); cbn; auto.
  - cbn. auto.
Qed.

Lemma connect_direct_no_io_witness :
  inbox (snd (net_Connect Example.resolving "host" 80 0 0
                (mkWorld [] [1; 2; 3] []))) = [1; 2; 3].
Proof.
  apply (connect_direct_no_io Example.resolving "host" 80 0 0
           (mkWorld [] [1; 2; 3] [])).
  reflexivity.
Defined.

(** ** The listening sockets across a call of accept *)

Lemma scan_keeps_array bo r n : forall ufd i st,
  match fst (scan bo r n i ufd st) with
  | Some _ => True
  | None => pi_fd (snd (scan bo r n i ufd st)) = pi_fd st
  end.
Proof.
  induction ufd as [|p rest IH]; intros i st; cbn [scan].
  - reflexivity.
  - destruct (pfd_revents p =? 0); [apply IH|].
    destruct (r_accept r (pfd_fd p) =? -1); [|exact I].
    match goal with
    | |- context [scan bo r n (S i) rest ?st0] =>
        specialize (IH (S i) st0);
        destruct (scan bo r n (S i) rest st0) as [[fd|] st1]
    end; [exact I|exact IH].
Qed.

(** X21. accept changes the array of listening sockets only when it
    returns a connection: a call that ends on a failed or empty wait, or
    because the object is no longer alive, leaves the array as it found
    it, however many turns it took. *)
Theorem accept_keeps_array bo evfd timeout : forall rounds st,
  match fst (accept_loop bo evfd timeout rounds st) with
  | Some (Ret (Accepted _)) => True
  | _ => pi_fd (snd (accept_loop bo evfd timeout rounds st)) = pi_fd st
  end.
Proof.
  induction rounds as [|r later IH]; intros st; cbn [accept_loop].
  - reflexivity.
  - destruct (r_alive r); cbn [negb]; [|reflexivity].
    destruct (count_fds (pi_fd st)) as [n|] eqn:Hn; [|reflexivity].
    rewrite (accept_poll r (pi_fd st) evfd timeout n st Hn). cbv zeta.
    destruct (r_poll_errno r) as [e|].
    + cbn [Z.eqb fst snd]. destruct (negb _); reflexivity.
    + rewrite (seen_nth r _ evfd n _ (count_fds_length _ _ Hn)).
      cbn [pfd_revents Z.eqb negb].
      destruct (_ =? -1); [cbn [fst snd]; destruct (negb _); reflexivity|].
      destruct (_ =? 0); [reflexivity|].
      match goal with
      | |- context [scan bo r n 0 ?u ?st0] =>
          pose proof (scan_keeps_array bo r n u 0%nat st0) as S;
          destruct (scan bo r n 0 u st0) as [[fd|] st1]
      end; cbn [fst snd] in *; [exact I|].
      specialize (IH st1). rewrite S in IH. exact IH.
Qed.

Lemma scan_first bo r n : forall pre i st sfd post extra,
  forallb (listener_skipped r) pre = true ->
  listener_skipped r sfd = false ->
  let rs :=
    scan bo r n i
      (firstn (List.length (pre ++ sfd :: post))
         (map (fun fd => mkPollfd fd POLLIN (r_revents r fd))
              (pre ++ sfd :: post) ++ extra)) st in
  fst rs = Some (r_accept r sfd) /\
  pi_fd (snd rs) = move_to_end bo (pi_fd st) (i + List.length pre) n sfd.
Proof.
  induction pre as [|fd pre IH]; intros i st sfd post extra Hpre Hsfd;
    cbv zeta; cbn [app List.length map firstn scan pfd_revents pfd_fd].
  - unfold listener_skipped in Hsfd. apply orb_false_iff in Hsfd.
    destruct Hsfd as [H1 H2]. rewrite H1, H2. cbn [fst snd pi_fd note set_pi_fd].
    rewrite Nat.add_0_r. auto.
  - cbn [forallb] in Hpre. apply andb_true_iff in Hpre.
    destruct Hpre as [Hfd Hpre]. unfold listener_skipped in Hfd.
    replace (i + S (List.length pre))%nat with (S i + List.length pre)%nat
      by lia.
    destruct (r_revents r fd =? 0).
    + apply (IH (S i) st sfd post extra Hpre Hsfd).
    + cbn [orb] in Hfd. rewrite Hfd.
      match goal with
      | |- context [scan bo r n (S i) _ ?st0] =>
          apply (IH (S i) st0 sfd post extra Hpre Hsfd)
      end.
Qed.

Lemma scan_first_calls bo r n : forall pre i st sfd post extra,
  forallb (listener_skipped r) pre = true ->
  listener_skipped r sfd = false ->
  let rs :=
    scan bo r n i
      (firstn (List.length (pre ++ sfd :: post))
         (map (fun fd => mkPollfd fd POLLIN (r_revents r fd))
              (pre ++ sfd :: post) ++ extra)) st in
  accept_calls (history (snd rs))
  = (sfd, r_accept r sfd)
    :: rev (map (fun fd => (fd, -1))
              (filter (fun fd => negb (r_revents r fd =? 0)) pre))
    ++ accept_calls (history st).
Proof.
  induction pre as [|fd pre IH]; intros i st sfd post extra Hpre Hsfd;
    cbv zeta; cbn [app List.length map firstn scan pfd_revents pfd_fd filter].
  - unfold listener_skipped in Hsfd. apply orb_false_iff in Hsfd.
    destruct Hsfd as [H1 H2]. rewrite H1, H2. reflexivity.
  - cbn [forallb] in Hpre. apply andb_true_iff in Hpre.
    destruct Hpre as [Hfd Hpre]. unfold listener_skipped in Hfd.
    destruct (r_revents r fd =? 0); cbn [negb].
    + apply (IH (S i) st sfd post extra Hpre Hsfd).
    + cbn [orb] in Hfd. rewrite Hfd. apply Z.eqb_eq in Hfd.
      match goal with
      | |- context [scan bo r n (S i) _ ?st0] =>
          pose proof (IH (S i) st0 sfd post extra Hpre Hsfd) as H
      end.
      cbv zeta in H. rewrite H. cbn [note history accept_calls map rev].
      rewrite Hfd, <- app_assoc. reflexivity.
Qed.

(** X22. In one turn, accept serves the first listening socket, in the
    order of the array, that has an event and on which [accept] works.
    [accept] was called on the sockets before it that had an event, where
    it failed, then on the socket served, and on no other: sockets without
    event are passed over and the sockets after the one served are not
    looked at.  The array is then rearranged for that socket. *)
Theorem accept_first_deliverable bo evfd timeout r later st n pre sfd post :
  r_alive r = true ->
  r_poll_errno r = None ->
  count_fds (pi_fd st) = Some n ->
  firstn n (pi_fd st) = pre ++ sfd :: post ->
  forallb (listener_skipped r) pre = true ->
  listener_skipped r sfd = false ->
  let rs := accept_loop bo evfd timeout (r :: later) st in
  fst rs = Some (Ret (Accepted (r_accept r sfd))) /\
  pi_fd (snd rs) = move_to_end bo (pi_fd st) (List.length pre) n sfd /\
  accept_calls (history (snd rs))
  = (sfd, r_accept r sfd)
    :: rev (map (fun fd => (fd, -1))
              (filter (fun fd => negb (r_revents r fd =? 0)) pre))
    ++ accept_calls (history st).
Proof.
  intros Halive Hpoll Hn Hfds Hpre Hsfd. cbv zeta. cbn [accept_loop].
  rewrite Halive, Hn. cbn [negb].
  rewrite (accept_poll r (pi_fd st) evfd timeout n st Hn). cbv zeta.
  rewrite Hpoll.
  rewrite (seen_nth r _ evfd n _ (count_fds_length _ _ Hn)).
  cbn [pfd_revents Z.eqb negb].
  pose proof (seen_count r (firstn n (pi_fd st))) as Hc.
  pose proof (count_fds_length _ _ Hn) as Hlen.
  destruct (List.length (filter _ _)) as [|m] eqn:Hcount.
  { exfalso. assert (Hall : forallb (fun fd => r_revents r fd =? 0)
                              (firstn n (pi_fd st)) = true)
      by (apply Hc; reflexivity).
    rewrite Hfds, forallb_app in Hall. apply andb_true_iff in Hall.
    destruct Hall as [_ Hall]. cbn [forallb] in Hall.
    apply andb_true_iff in Hall. destruct Hall as [Hz _].
    unfold listener_skipped in Hsfd. rewrite Hz in Hsfd. discriminate Hsfd. }
  replace (Z.of_nat (S m) =? -1) with false by (symmetry; apply Z.eqb_neq; lia).
  replace (Z.of_nat (S m) =? 0) with false by (symmetry; apply Z.eqb_neq; lia).
  rewrite Hfds in *.
  pose proof (scan_first bo r n pre 0%nat
                (note (EvPollSet (pre ++ sfd :: post) timeout) st)
                sfd post [mkPollfd evfd POLLIN 0] Hpre Hsfd) as Hs.
  pose proof (scan_first_calls bo r n pre 0%nat
                (note (EvPollSet (pre ++ sfd :: post) timeout) st)
                sfd post [mkPollfd evfd POLLIN 0] Hpre Hsfd) as Hcalls.
  cbv zeta in Hs, Hcalls. rewrite Hlen in Hs, Hcalls.
  destruct (scan bo r n 0 _ _) as [[fd|] st1]; cbn [fst snd] in *;
    destruct Hs as [H1 H2]; [|discriminate H1].
  injection H1 as ->. auto.
Qed.

Lemma accept_first_deliverable_witness :
  fst (accept_loop LittleEndian Scenario.evfd 1000
         [Example.first_accept_fails] Scenario.three_listeners)
  = Some (Ret (Accepted 104))
  /\ accept_calls
       (history (snd (accept_loop LittleEndian Scenario.evfd 1000
                        [Example.first_accept_fails]
                        Scenario.three_listeners)))
     = [(4, 104); (3, -1)].
Proof.
  destruct (accept_first_deliverable LittleEndian Scenario.evfd 1000
              Example.first_accept_fails [] Scenario.three_listeners 3
              [3] 4 [5] eq_refl eq_refl eq_refl eq_refl eq_refl eq_refl)
    as [H1 [_ H3]].
  split; [exact H1 | exact H3].
Defined.

Lemma scan_origin bo r n : forall ufd i st,
  match fst (scan bo r n i ufd st) with
  | Some fd =>
      fd <> -1 /\
      exists p, In p ufd /\ pfd_revents p <> 0 /\ r_accept r (pfd_fd p) = fd
  | None => True
  end.
Proof.
  induction ufd as [|p rest IH]; intros i st; cbn [scan].
  - exact I.
  - destruct (pfd_revents p =? 0) eqn:Hev.
    + specialize (IH (S i) st).
      destruct (fst (scan bo r n (S i) rest st)); [|exact I].
      destruct IH as [H [q [Hq Hr]]]. split; [exact H|].
      exists q. split; [right; exact Hq | exact Hr].
    + apply Z.eqb_neq in Hev.
      destruct (r_accept r (pfd_fd p) =? -1) eqn:Hacc.
      * match goal with
        | |- context [scan bo r n (S i) rest ?st0] => specialize (IH (S i) st0)
        end.
        destruct (fst (scan bo r n (S i) rest _)); [|exact I].
        destruct IH as [H [q [Hq Hr]]]. split; [exact H|].
        exists q. split; [right; exact Hq | exact Hr].
      * apply Z.eqb_neq in Hacc. cbn [fst]. split; [exact Hacc|].
        exists p. split; [left; reflexivity | auto].
Qed.

(** X23. A connection returned by accept is never -1, and it is what
    [accept] gave on one of the listening sockets of the array, in a turn
    where that socket had an event. *)
Theorem accept_result_origin bo evfd timeout : forall rounds st,
  match fst (accept_loop bo evfd timeout rounds st) with
  | Some (Ret (Accepted fd)) =>
      fd <> -1 /\
      exists r sfd,
        In r rounds /\ In sfd (pi_fd st) /\
        r_revents r sfd <> 0 /\ r_accept r sfd = fd
  | _ => True
  end.
Proof.
  induction rounds as [|r later IH]; intros st; cbn [accept_loop].
  - exact I.
  - destruct (r_alive r); cbn [negb]; [|exact I].
    destruct (count_fds (pi_fd st)) as [n|] eqn:Hn; [|exact I].
    rewrite (accept_poll r (pi_fd st) evfd timeout n st Hn). cbv zeta.
    destruct (r_poll_errno r) as [e|]; [cbn; exact I|].
    rewrite (seen_nth r _ evfd n _ (count_fds_length _ _ Hn)).
    cbn [pfd_revents Z.eqb negb].
    destruct (_ =? -1); [exact I|].
    destruct (_ =? 0); [exact I|].
    destruct (firstn_exact
                (map (fun fd => mkPollfd fd POLLIN (r_revents r fd))
                     (firstn n (pi_fd st)))
                [mkPollfd evfd POLLIN 0] n) as [Hf _].
    { rewrite length_map. apply count_fds_length. exact Hn. }
    rewrite Hf.
    match goal with
    | |- context [scan bo r n 0 ?u ?st0] =>
        pose proof (scan_origin bo r n u 0%nat st0) as O;
        pose proof (scan_keeps_array bo r n u 0%nat st0) as K;
        destruct (scan bo r n 0 u st0) as [[fd|] st1]
    end; cbn [fst snd] in *.
    + destruct O as [Hfd [p [Hp [Hev Hacc]]]]. split; [exact Hfd|].
      apply in_map_iff in Hp. destruct Hp as [sfd [<- Hin]].
      cbn [pfd_revents pfd_fd] in *.
      exists r, sfd. split; [left; reflexivity|].
      split; [|auto].
      rewrite <- (firstn_skipn n (pi_fd st)). apply in_or_app. left. exact Hin.
    + specialize (IH st1). cbn [pi_fd note] in K. rewrite K in IH.
      destruct (fst (accept_loop bo evfd timeout later st1)) as [[[]|]|];
        try exact I.
      destruct IH as [Hfd [r' [sfd [Hr Hrest]]]]. split; [exact Hfd|].
      exists r', sfd. split; [right; exact Hr | exact Hrest].
Qed.

(** ** The array of listening sockets as bytes *)

Lemma bytes_join (v : Z) :
  Z.lor (Z.land v 255)
    (Z.lor (Z.shiftl (Z.land (Z.shiftr v 8) 255) 8)
       (Z.lor (Z.shiftl (Z.land (Z.shiftr v 16) 255) 16)
              (Z.shiftl (Z.land (Z.shiftr v 24) 255) 24)))
  = v mod 2 ^ 32.
Proof.
  apply Z.bits_inj'. intros i Hi.
  change 255 with (Z.ones 8).
  rewrite !Z.lor_spec.
  destruct (Z.ltb_spec i 32) as [Hlt|Hge].
  - rewrite Z.mod_pow2_bits_low by lia.
    destruct (Z.ltb_spec i 8); [|destruct (Z.ltb_spec i 16);
      [|destruct (Z.ltb_spec i 24)]];
      repeat first
        [ rewrite Z.shiftl_spec by lia
        | rewrite Z.land_spec
        | rewrite Z.shiftr_spec by lia
        | rewrite Z.testbit_ones_nonneg by lia
        | rewrite (Z.testbit_neg_r _ (i - 8)) by lia
        | rewrite (Z.testbit_neg_r _ (i - 16)) by lia
        | rewrite (Z.testbit_neg_r _ (i - 24)) by lia ];
      repeat match goal with
             | |- context [?a <? ?b] =>
                 destruct (Z.ltb_spec a b); try lia
             end;
      rewrite ?andb_true_r, ?andb_false_r, ?orb_false_r, ?orb_false_l;
      try reflexivity; f_equal; lia.
  - rewrite Z.mod_pow2_bits_high by lia.
    repeat first
      [ rewrite Z.shiftl_spec by lia
      | rewrite Z.land_spec
      | rewrite Z.shiftr_spec by lia
      | rewrite Z.testbit_ones_nonneg by lia ];
      repeat match goal with
             | |- context [?a <? ?b] =>
                 destruct (Z.ltb_spec a b); try lia
             end;
      rewrite ?andb_false_r; reflexivity.
Qed.

Lemma decode_encode_int bo v :
  int_range v ->
  match encode_int bo v with
  | [b0; b1; b2; b3] => decode_int bo b0 b1 b2 b3 = v
  | _ => False
  end.
Proof.
  unfold int_range. intros H.
  assert (Hu : (if v mod 2 ^ 32 <? 2 ^ 31 then v mod 2 ^ 32
                else v mod 2 ^ 32 - 2 ^ 32) = v).
  { destruct (Z.ltb_spec (v mod 2 ^ 32) (2 ^ 31)) as [Hlt|Hge].
    - destruct (Z.ltb_spec v 0) as [Hneg|Hpos].
      + rewrite <- (Z.mod_add v 1 (2 ^ 32)) in Hlt by lia.
        rewrite Z.mod_small in Hlt by lia. lia.
      + apply Z.mod_small. lia.
    - destruct (Z.ltb_spec v 0) as [Hneg|Hpos].
      + rewrite <- (Z.mod_add v 1 (2 ^ 32)) by lia.
        rewrite Z.mod_small by lia. lia.
      + rewrite Z.mod_small in Hge by lia. lia. }
  destruct bo; cbn [encode_int int_bytes rev app]; unfold decode_int;
    rewrite bytes_join; exact Hu.
Qed.

Lemma decode_encode_ints bo : forall a,
  Forall int_range a -> decode_ints bo (encode_ints bo a) = a.
Proof.
  induction a as [|v a IH]; intros H; [reflexivity|].
  inversion H as [|? ? Hv Ha]; subst.
  pose proof (decode_encode_int bo v Hv) as E.
  unfold encode_ints in *. cbn [flat_map].
  destruct (encode_int bo v) as [|b0 [|b1 [|b2 [|b3 [|]]]]]; try contradiction.
  cbn [app decode_ints]. rewrite E, (IH Ha). reflexivity.
Qed.

Lemma store_same : forall (a : list Z) i v,
  nth_error a i = Some v -> store a i v = a.
Proof.
  unfold store. induction a as [|x a IH]; intros [|i] v H; cbn in *;
    try discriminate.
  - injection H as ->. reflexivity.
  - f_equal. apply IH. exact H.
Qed.

(** X24. Serving the last listening socket of the array leaves the array
    as it is, in either byte order: nothing is moved and the socket is
    written back in its place.  In particular a single listening socket is
    never displaced. *)
Theorem move_to_end_last bo a i sfd :
  Forall int_range a ->
  nth_error a i = Some sfd ->
  move_to_end bo a i (S i) sfd = a.
Proof.
  intros Hrange Hnth. unfold move_to_end, memmove.
  replace (S i - (i + 1))%nat with 0%nat by lia.
  cbn [firstn app]. rewrite Nat.add_0_r, firstn_skipn.
  rewrite decode_encode_ints by exact Hrange.
  replace (S i - 1)%nat with i by lia. apply store_same. exact Hnth.
Qed.

Lemma move_to_end_last_witness :
  move_to_end BigEndian [3; 4; 5; -1] 2 3 5 = [3; 4; 5; -1].
Proof.
  apply (move_to_end_last BigEndian [3; 4; 5; -1] 2 5); [|reflexivity].
  repeat constructor; unfold int_range; lia.
Defined.

(** ** net_ListenClose *)

Lemma close_each_prefix : forall a n w,
  count_fds a = Some n ->
  close_each a w = Ret (fold_left (fun w fd => net_Close fd w) (firstn n a) w).
Proof.
  induction a as [|fd rest IH]; intros n w H; cbn [count_fds close_each] in *.
  - discriminate.
  - destruct (fd =? -1).
    + injection H as <-. reflexivity.
    + destruct (count_fds rest) as [m|]; [|discriminate].
      injection H as <-. cbn [firstn fold_left]. apply IH. reflexivity.
Qed.

Lemma close_each_unterminated : forall a w,
  count_fds a = None -> close_each a w = Fault OutOfBounds.
Proof.
  induction a as [|fd rest IH]; intros w H; cbn [count_fds close_each] in *.
  - reflexivity.
  - destruct (fd =? -1); [discriminate|].
    destruct (count_fds rest); [discriminate|]. apply IH. reflexivity.
Qed.

Lemma closed_fold : forall fds w,
  closed (trace (fold_left (fun w fd => net_Close fd w) fds w))
  = rev fds ++ closed (trace w).
Proof.
  induction fds as [|fd fds IH]; intros w; cbn [fold_left rev].
  - reflexivity.
  - rewrite IH. cbn [net_Close ev trace closed]. rewrite <- app_assoc.
    reflexivity.
Qed.

(** X25. [net_ListenClose] closes the sockets of the array up to the
    closing -1, each once and in the order of the array, which are the
    sockets accept waits on, and hands the array to [free]; entries after
    the -1 are not touched. *)
Theorem listen_close_all a n w :
  count_fds a = Some n ->
  exists w',
    net_ListenClose (Some a) w = Ret (true, w') /\
    closed (trace w') = rev (firstn n a) ++ closed (trace w) /\
    inbox w' = inbox w.
Proof.
  intros Hn. unfold net_ListenClose. rewrite (close_each_prefix a n w Hn).
  eexists. split; [reflexivity|]. split; [apply closed_fold|].
  generalize (firstn n a). intros fds. revert w.
  induction fds as [|fd fds IH]; intros w; cbn [fold_left];
    [reflexivity | rewrite IH; reflexivity].
Qed.

Lemma listen_close_all_witness :
  exists w',
    net_ListenClose (Some [3; 4; 5; -1; 6]) Scenario.quiet_world
    = Ret (true, w') /\
    closed (trace w') = [5; 4; 3] /\ inbox w' = [].
Proof.
  apply (listen_close_all [3; 4; 5; -1; 6] 3 Scenario.quiet_world).
  reflexivity.
Defined.
